(** * GPS-driven telescope synchronisation: update_lat_lon_time.py

    A shallow embedding of [wait_for_fix] and [set_telescope_from_gps] and
    the properties of the fix accumulator and of the synchronisation run,
    followed by [identify_ports] and the script that calls the two.

    Conventions of the embedding.
    - Python floats that are only compared with a literal or carried
      around (HDOP, latitude, longitude) are rationals [Q]; the comparison
      [msg.HDOP < 3] is exact on them.  A NaN is not represented: the
      program treats a report with such an HDOP like one at or above 3.
    - Python integers are [Z], strings are [string]: a character is a
      code point up to 255.
    - Console output, serial-port handling and the requests sent to the
      hand controller are recorded, in order, in a trace of [Event]s.
    - Everything the program obtains from outside (the NMEA reader, the
      controller's replies, the timezone index and database) is a field of
      a [World]; the program is a function of it.  [identify_ports] is a
      function of the list [sorted(comports())]. *)

From Stdlib Require Import ZArith QArith String Ascii List Bool Lia Permutation.
Import ListNotations.

Set Implicit Arguments.

(** ** Values *)

(** [datetime.date], [datetime.time] and an aware [datetime.datetime].

    An aware datetime is represented by the instant it denotes, written in
    UTC calendar fields, together with the offsets its [tzinfo] has at that
    instant (seconds): its wall-clock reading is the instant shifted by
    [utcoffset].  [astimezone] therefore keeps the instant and replaces the
    offsets. *)
Module datetime.

Record date := Date { year : Z; month : Z; day : Z }.

Record time := Time { hour : Z; minute : Z; second : Z; microsecond : Z }.

Record offsets := Offsets { utcoffset : Z; dst_seconds : Z }.

(** A timezone gives, for each instant (in UTC fields), the offsets in
    force. *)
Definition tzinfo := date -> time -> offsets.

Record datetime := DateTime {
  instant_date : date;
  instant_time : time;
  tz : offsets
}.

(** [datetime.datetime(year=, month=, day=, hour=, minute=, second=, tzinfo=)]
    for a fixed-offset zone whose offset is zero: the fields are the UTC
    fields, the microsecond defaults to 0. *)
Definition make (y mo d h mi s : Z) (zone : tzinfo) : datetime :=
  let da := Date y mo d in
  let ti := Time h mi s 0 in
  DateTime da ti (zone da ti).

Definition astimezone (dt : datetime) (zone : tzinfo) : datetime :=
  DateTime (instant_date dt) (instant_time dt)
           (zone (instant_date dt) (instant_time dt)).

(** [dt.dst().total_seconds()] *)
Definition dst (dt : datetime) : Z := dst_seconds (tz dt).

End datetime.

(** [pytz.timezone("UTC")] *)
Definition tz_utc : datetime.tzinfo := fun _ _ => datetime.Offsets 0 0.

(** A decoded NMEA sentence as [pynmeagps] hands it over: the attributes
    the program reads.  Which of them are meaningful depends on [msgID];
    the program reads [lat], [lon], [time] and [HDOP] only of a GGA
    sentence and [status] and [date] only of an RMC sentence.  The
    attributes have the types of the program's annotations ([Fix.lat] is a
    [float], [Fix.date] a [datetime.date], ...): a sentence whose fields
    are empty is not a value of this type. *)
Module NMEAMessage.

Record t := Make {
  msgID : string;
  lat : Q;
  lon : Q;
  time : datetime.time;
  HDOP : Q;
  status : string;
  date : datetime.date
}.

End NMEAMessage.

Module Fix.

Record t := Make {
  lat : Q;
  lon : Q;
  date : datetime.date;
  time : datetime.time
}.

End Fix.

(** The exceptions that occur.  [KeyboardInterrupt] derives from
    [BaseException] only; all the others derive from [Exception]. *)
Inductive PyExc : Type :=
| KeyboardInterrupt
| AttributeError
| ValueError
| UnknownTimeZoneError
| SerialException
| NexstarProtocolError.

Definition is_Exception (e : PyExc) : bool :=
  match e with
  | KeyboardInterrupt => false
  | _ => true
  end.

(** ** Trace *)

(** One constructor per [print] statement of the program. *)
Inductive Line : Type :=
| NexStar_Model (model : string)
| NexStar_Version (major minor : Z)
| Exception_occurred (ex : PyExc)
| GPS_GGA (msg : NMEAMessage.t)
| Degredation_of_Precision_is_too_high
| GPS_RMC (msg : NMEAMessage.t)
| Data_frame_is_not_valid
| Failed_to_acquire_a_fix
| UTC_ (dt : datetime.datetime)
| Local_ (dt : datetime.datetime)
| DST_ (b : bool)
| GPS_ (lat lon : Q)
| Set_telescope_location (v : string)
| Set_telescope_time (v : string)
| Current_telescope_position (v : string).

(** The requests of [NexstarHandController] the program sends. *)
Inductive Request : Type :=
| getModel
| getVersion
| setTime (timestamp : datetime.datetime) (dst : Z)
| setLocation (lat lon : Q)
| getLocation
| getTime
| getPosition.

Inductive Event : Type :=
| Print (l : Line)
| Opened (port : string)
| Closed (port : string)
| reset_input_buffer
| Sent (r : Request).

(** ** Effects *)

(** A computation that only writes to the trace. *)
Definition Log (A : Type) : Type := (list Event * A)%type.

Definition pure {A} (a : A) : Log A := ([], a).

Definition and_then {A B} (m : Log A) (k : A -> Log B) : Log B :=
  let (l1, a) := m in
  let (l2, b) := k a in
  (l1 ++ l2, b).

Definition tell (ev : Event) : Log unit := ([ev], tt).

Definition trace {A} (m : Log A) : list Event := fst m.
Definition value {A} (m : Log A) : A := snd m.

(** How a computation ends: it returns, an exception escapes it, or it
    never returns (it stays blocked in a read). *)
Inductive Result (A : Type) : Type :=
| Ok (a : A)
| Raise (e : PyExc)
| Hang.

Arguments Ok {A} a.
Arguments Raise {A} e.
Arguments Hang {A}.

Definition Run (A : Type) : Type := Log (Result A).

Definition ret {A} (a : A) : Run A := ([], Ok a).

Definition raise {A} (e : PyExc) : Run A := ([], Raise e).

Definition bind {A B} (m : Run A) (k : A -> Run B) : Run B :=
  match m with
  | (l1, Ok a) => let (l2, r) := k a in (l1 ++ l2, r)
  | (l1, Raise e) => (l1, Raise e)
  | (l1, Hang) => (l1, Hang)
  end.

Definition emit (ev : Event) : Run unit := ([ev], Ok tt).

Definition print (l : Line) : Run unit := emit (Print l).

(** [try: body  except Exception as ex: handler ex] *)
Definition try_except_Exception {A} (body : Run A) (handler : PyExc -> Run A)
  : Run A :=
  match body with
  | (l1, Raise ex) =>
      if is_Exception ex
      then let (l2, r) := handler ex in (l1 ++ l2, r)
      else (l1, Raise ex)
  | other => other
  end.

Declare Scope run_scope.
Delimit Scope run_scope with run.
Notation "x <- m ;; k" := (bind m (fun x => k))
  (at level 61, m at next level, right associativity) : run_scope.
Notation "m ;; k" := (bind m (fun _ => k))
  (at level 61, right associativity) : run_scope.

Declare Scope log_scope.
Delimit Scope log_scope with log.
Notation "x <~ m ;; k" := (and_then m (fun x => k))
  (at level 61, m at next level, right associativity) : log_scope.
Notation "m ;; k" := (and_then m (fun _ => k))
  (at level 61, right associativity) : log_scope.

(** ** The fix accumulator: [wait_for_fix] *)

(** The four local variables [lat], [lon], [date], [time] of
    [wait_for_fix]; [None] is Python's [None]. *)
Module Accumulator.

Record t := Make {
  lat : option Q;
  lon : option Q;
  date : option datetime.date;
  time : option datetime.time
}.

End Accumulator.

(** [x < y] on the rationals, as a boolean. *)
Definition Qlt_bool (x y : Q) : bool :=
  (Qnum x * Zpos (Qden y) <? Qnum y * Zpos (Qden x))%Z.

(** What one call of [nmr.read()] does: it returns a decoded sentence, or
    the operator interrupts the wait ([KeyboardInterrupt] is raised inside
    the [try]). *)
Inductive ReadEvent : Type :=
| Read (msg : NMEAMessage.t)
| Interrupt.

(** How far [wait_for_fix] gets on the reads it is given: it returns a
    [Fix], it returns [None], or it has used up the reads and is blocked in
    the next [nmr.read()] with its local variables as shown. *)
Inductive Acquisition : Type :=
| Emitted (f : Fix.t)
| Cancelled
| Blocked (st : Accumulator.t).

(** Lines 74-99: the two [if msg.msgID == ...] statements. *)
Definition loop_body (st : Accumulator.t) (msg : NMEAMessage.t)
  : Log Accumulator.t :=
  (st <~ (if String.eqb (NMEAMessage.msgID msg) "GGA" then
            tell (Print (GPS_GGA msg)) ;;
            if Qlt_bool (NMEAMessage.HDOP msg) 3 then
              pure (Accumulator.Make
                      (Some (NMEAMessage.lat msg))
                      (Some (NMEAMessage.lon msg))
                      (Accumulator.date st)
                      (Some (NMEAMessage.time msg)))
            else
              tell (Print Degredation_of_Precision_is_too_high) ;;
              pure st
          else pure st) ;;
   if String.eqb (NMEAMessage.msgID msg) "RMC" then
     tell (Print (GPS_RMC msg)) ;;
     if String.eqb (NMEAMessage.status msg) "A" then
       pure (Accumulator.Make
               (Accumulator.lat st)
               (Accumulator.lon st)
               (Some (NMEAMessage.date msg))
               (Accumulator.time st))
     else
       tell (Print Data_frame_is_not_valid) ;;
       pure st
   else pure st)%log.

(** Lines 100-101: [all(val is not None for val in [lat, lon, date, time])]
    and the [Fix] then built. *)
Definition all_populated (st : Accumulator.t) : option Fix.t :=
  match Accumulator.lat st, Accumulator.lon st,
        Accumulator.date st, Accumulator.time st with
  | Some la, Some lo, Some d, Some t => Some (Fix.Make la lo d t)
  | _, _, _, _ => None
  end.

(** Lines 71-104: the [while True] loop, on the reads still to come. *)
Fixpoint wait_loop (st : Accumulator.t) (reads : list ReadEvent)
  : Log Acquisition :=
  match reads with
  | [] => pure (Blocked st)
  | Interrupt :: _ => pure Cancelled
  | Read msg :: rest =>
      (st' <~ loop_body st msg ;;
       match all_populated st' with
       | Some f => pure (Emitted f)
       | None => wait_loop st' rest
       end)%log
  end.

(** Lines 66-70.  The parameter [hdop] is declared as an [int]; the body
    does not mention it. *)
Definition wait_for_fix (reads : list ReadEvent) (hdop : Z) : Log Acquisition :=
  wait_loop (Accumulator.Make None None None None) reads.

(** The default of the parameter [hdop]. *)
Definition default_hdop : Z := 3.

(** The state of the local variables after the loop body has run on each
    of [msgs] in turn. *)
Definition consume (st : Accumulator.t) (msgs : list NMEAMessage.t)
  : Accumulator.t :=
  fold_left (fun s msg => value (loop_body s msg)) msgs st.

(** ** The synchronisation run: [set_telescope_from_gps] *)

Record PortIDs := { gps : string; telescope : string }.

(** The replies of the hand controller.  A run sends each request at most
    once, so a reply per request is as general as a reply per call. *)
Record NexstarHandController := {
  on_getModel : Result Z;
  on_getVersion : Result (Z * Z);
  on_setTime : datetime.datetime -> Z -> Result unit;
  on_setLocation : Q -> Q -> Result unit;
  on_getLocation : Result string;
  on_getTime : Result string;
  on_getPosition : Result string
}.

(** What the program obtains from outside during one run. *)
Record World := {
  (** [Serial(port)]: the exception raised when the port does not open *)
  Serial : string -> option PyExc;
  controller : NexstarHandController;
  (** the enumeration [NexstarModel]: the name of a model number *)
  NexstarModel : Z -> option string;
  (** what the successive calls of [nmr.read()] do *)
  nmea : list ReadEvent;
  (** [TimezoneFinder().timezone_at(lat=, lng=)] *)
  timezone_at : Q -> Q -> option string;
  (** the zones [pytz] knows by name *)
  zones : string -> option datetime.tzinfo
}.

Definition call {A} (r : Request) (reply : Result A) : Run A :=
  ([Sent r], reply).

(** [NexstarModel(m)]: the lookup of an enumeration value fails with
    [ValueError]. *)
Definition to_NexstarModel (w : World) (m : Z) : Run string :=
  match NexstarModel w m with
  | Some name => ret name
  | None => raise ValueError
  end.

(** [pytz.timezone(zone)]: [None] and unknown names are rejected with
    [pytz.UnknownTimeZoneError]. *)
Definition pytz_timezone (w : World) (zone : option string)
  : Run datetime.tzinfo :=
  match zone with
  | None => raise UnknownTimeZoneError
  | Some name =>
      match zones w name with
      | Some tz => ret tz
      | None => raise UnknownTimeZoneError
      end
  end.

(** [with Serial(port) as s: body]: the port is closed when the body
    returns and when an exception leaves it. *)
Definition with_Serial {A} (w : World) (port : string) (body : Run A) : Run A :=
  match Serial w port with
  | Some e => raise e
  | None =>
      match body with
      | (l, Hang) => (Opened port :: l, Hang)
      | (l, r) => (Opened port :: l ++ [Closed port], r)
      end
  end.

(** The call [wait_for_fix(nmr)] of line 126: [hdop] takes its default. *)
Definition returned (a : Acquisition) : Result (option Fix.t) :=
  match a with
  | Emitted f => Ok (Some f)
  | Cancelled => Ok None
  | Blocked _ => Hang
  end.

Definition call_wait_for_fix (w : World) : Run (option Fix.t) :=
  let (l, a) := wait_for_fix (nmea w) default_hdop in (l, returned a).

Section Steps.

Variable w : World.

(** Lines 114-121.  The handler's [exit] names the built-in without
    calling it: the statement does nothing. *)
Definition identify : Run unit :=
  try_except_Exception
    (m <- call getModel (on_getModel (controller w)) ;;
     model <- to_NexstarModel w m ;;
     print (NexStar_Model model) ;;
     v <- call getVersion (on_getVersion (controller w)) ;;
     print (NexStar_Version (fst v) (snd v)))%run
    (fun ex => print (Exception_occurred ex)).

(** Lines 131-153, once [fix] is a [Fix]. *)
Definition resolve_and_push (f : Fix.t) : Run unit :=
  (let tz_local_str := timezone_at w (Fix.lat f) (Fix.lon f) in
   tz_local <- pytz_timezone w tz_local_str ;;
   let dt_utc :=
     datetime.make
       (datetime.year (Fix.date f))
       (datetime.month (Fix.date f))
       (datetime.day (Fix.date f))
       (datetime.hour (Fix.time f))
       (datetime.minute (Fix.time f))
       (datetime.second (Fix.time f))
       tz_utc in
   let dt_local := datetime.astimezone dt_utc tz_local in
   let is_daylight_saving_time :=
     (if 0 <? datetime.dst dt_local then 1 else 0)%Z in
   call (setTime dt_local is_daylight_saving_time)
        (on_setTime (controller w) dt_local is_daylight_saving_time) ;;
   call (setLocation (Fix.lat f) (Fix.lon f))
        (on_setLocation (controller w) (Fix.lat f) (Fix.lon f)) ;;
   print (UTC_ dt_utc) ;;
   print (Local_ dt_local) ;;
   print (DST_ (negb (is_daylight_saving_time =? 0)%Z)) ;;
   print (GPS_ (Fix.lat f) (Fix.lon f)))%run.

(** Lines 155-157. *)
Definition verify : Run unit :=
  (loc <- call getLocation (on_getLocation (controller w)) ;;
   print (Set_telescope_location loc) ;;
   t <- call getTime (on_getTime (controller w)) ;;
   print (Set_telescope_time t) ;;
   pos <- call getPosition (on_getPosition (controller w)) ;;
   print (Current_telescope_position pos))%run.

(** Lines 123-157.  After the message of line 128 the function goes on;
    [fix.lat] on [None] raises [AttributeError] while the arguments of
    [timezone_at] are evaluated. *)
Definition synchronise : Run unit :=
  (emit reset_input_buffer ;;
   fix_ <- call_wait_for_fix w ;;
   (match fix_ with
    | None => print Failed_to_acquire_a_fix
    | Some _ => ret tt
    end) ;;
   match fix_ with
   | None => raise AttributeError
   | Some f => resolve_and_push f ;; verify
   end)%run.

(** Lines 107-157. *)
Definition set_telescope_from_gps (ports : PortIDs) : Run unit :=
  with_Serial w (gps ports)
    (with_Serial w (telescope ports)
       (identify ;; synchronise)%run).

End Steps.

(** A request that changes the controller. *)
Definition is_write (ev : Event) : bool :=
  match ev with
  | Sent (setTime _ _) | Sent (setLocation _ _) => true
  | _ => false
  end.

Definition no_write (l : list Event) : Prop :=
  forall ev, In ev l -> is_write ev = false.

(** ** Concrete sentences and worlds used to exercise the development *)

Module Scenario.

Definition ports : PortIDs :=
  {| gps := "/dev/ttyACM0"; telescope := "/dev/ttyUSB0" |}.

(** A GGA sentence at 34 N, 118 W, 17:30:00 UTC with the given HDOP. *)
Definition gga (hdop : Q) : NMEAMessage.t :=
  NMEAMessage.Make "GGA" 34 (-118) (datetime.Time 17 30 0 0) hdop
                   "" (datetime.Date 0 0 0).

(** The same at Phoenix, 33.45 N, 112.07 W. *)
Definition gga_Phoenix : NMEAMessage.t :=
  NMEAMessage.Make "GGA" (669 # 20) (-11207 # 100) (datetime.Time 17 30 0 0)
                   (3 # 2) "" (datetime.Date 0 0 0).

(** A position in the Pacific, 30 S, 140 W. *)
Definition gga_ocean : NMEAMessage.t :=
  NMEAMessage.Make "GGA" (-30) (-140) (datetime.Time 17 30 0 0)
                   (3 # 2) "" (datetime.Date 0 0 0).

(** An RMC sentence of 2024-06-01 with the given status. *)
Definition rmc (status : string) : NMEAMessage.t :=
  NMEAMessage.Make "RMC" 0 0 (datetime.Time 17 30 0 0) 0
                   status (datetime.Date 2024 6 1).

(** A sentence of another kind (satellites in view). *)
Definition gsv : NMEAMessage.t :=
  NMEAMessage.Make "GSV" 0 0 (datetime.Time 0 0 0 0) 0
                   "" (datetime.Date 0 0 0).

(** Pacific time in 2024: daylight saving from 2024-03-10 10:00 UTC to
    2024-11-03 09:00 UTC. *)
Definition America_Los_Angeles : datetime.tzinfo :=
  fun d t =>
    let key := ((datetime.month d * 100 + datetime.day d) * 100
                + datetime.hour t)%Z in
    if ((31010 <=? key) && (key <? 110309))%Z%bool
    then datetime.Offsets (-25200) 3600
    else datetime.Offsets (-28800) 0.

(** Arizona keeps mountain standard time all year. *)
Definition America_Phoenix : datetime.tzinfo :=
  fun _ _ => datetime.Offsets (-25200) 0.

Definition pytz_zones (name : string) : option datetime.tzinfo :=
  if String.eqb name "America/Los_Angeles" then Some America_Los_Angeles
  else if String.eqb name "America/Phoenix" then Some America_Phoenix
  else None.

(** A timezone index that knows the two positions above. *)
Definition finder (lat lon : Q) : option string :=
  if Qeq_bool lat 34 && Qeq_bool lon (-118)
  then Some "America/Los_Angeles"%string
  else if Qeq_bool lat (669 # 20) && Qeq_bool lon (-11207 # 100)
  then Some "America/Phoenix"%string
  else None.

(** A controller that answers every request. *)
Definition healthy : NexstarHandController :=
  {| on_getModel := Ok 12%Z;
     on_getVersion := Ok (4, 21)%Z;
     on_setTime := fun _ _ => Ok tt;
     on_setLocation := fun _ _ => Ok tt;
     on_getLocation := Ok "(34.0, -118.0)"%string;
     on_getTime := Ok "2024-06-01 10:30:00"%string;
     on_getPosition := Ok "(0.0, 90.0)"%string |}.

Definition world (c : NexstarHandController) (reads : list ReadEvent)
  : World :=
  {| Serial := fun _ => None;
     controller := c;
     NexstarModel :=
       fun m => if (m =? 12)%Z then Some "NexstarModel.SE_6_8"%string else None;
     nmea := reads;
     timezone_at := finder;
     zones := pytz_zones |}.

(** A controller that does not answer [getModel]. *)
Definition unidentified : NexstarHandController :=
  {| on_getModel := Raise NexstarProtocolError;
     on_getVersion := on_getVersion healthy;
     on_setTime := on_setTime healthy;
     on_setLocation := on_setLocation healthy;
     on_getLocation := on_getLocation healthy;
     on_getTime := on_getTime healthy;
     on_getPosition := on_getPosition healthy |}.

(** A controller whose [getLocation] fails. *)
Definition no_readback : NexstarHandController :=
  {| on_getModel := on_getModel healthy;
     on_getVersion := on_getVersion healthy;
     on_setTime := on_setTime healthy;
     on_setLocation := on_setLocation healthy;
     on_getLocation := Raise NexstarProtocolError;
     on_getTime := on_getTime healthy;
     on_getPosition := on_getPosition healthy |}.

Definition good_sky : list ReadEvent :=
  [Read (gga (3 # 2)); Read (rmc "A")].

(** The run with a good sky and the controller whose [getLocation]
    fails. *)
Definition readback_failure : Run unit :=
  set_telescope_from_gps (world no_readback good_sky) ports.

End Scenario.

(** ** The device locator: [identify_ports] *)

(** An entry of [comports()]; iterating over it yields the device name, the
    description and the hardware id, which the [for] statement of line 26
    binds to [port], [desc] and [hwid]. *)
Module ListPortInfo.

Record t := Make {
  device : string;
  description : string;
  hwid : string
}.

End ListPortInfo.

Definition GPS_ID : string * string := ("1546", "01A7")%string.

Definition NEXSTAR_ID : string * string := ("067B", "23D3")%string.

(** [re.search] with the pattern of line 28,
    ["VID:PID=([0-9A-F]{4}):([0-9A-F]{4})\b"], under [re.IGNORECASE].  The
    pattern has no alternative and no repetition of variable length, so it
    matches at a position in one way or not at all, and the search returns
    the match at the leftmost position that has one. *)
Module re.

Definition code (c : ascii) : nat := nat_of_ascii c.

Definition between (lo hi : nat) (c : ascii) : bool :=
  ((lo <=? code c) && (code c <=? hi))%nat.

(** [[0-9A-F]], ignoring case. *)
Definition hex_digit (c : ascii) : bool :=
  between 48 57 c || between 65 70 c || between 97 102 c.

(** [\w] on a character of code up to 255: the alphanumeric characters
    (ASCII letters and digits, and among the codes from 128 on the letters,
    superscript digits and fractions of Latin-1) and the underscore. *)
Definition word (c : ascii) : bool :=
  between 48 57 c || between 65 90 c || between 95 95 c || between 97 122 c
  || between 170 170 c || between 178 179 c || between 181 181 c
  || between 185 186 c || between 188 190 c || between 192 214 c
  || between 216 246 c || between 248 255 c.

(** The upper-case form of an ASCII letter.  A literal of the pattern
    matches a character when the two agree up to case; the literals are
    ASCII, and no other character of code up to 255 folds to one. *)
Definition upper (c : ascii) : ascii :=
  if between 97 122 c then ascii_of_nat (code c - 32) else c.

(** The literal [pat] at the head of [s]: what follows it. *)
Fixpoint literal (pat s : string) : option string :=
  match pat, s with
  | EmptyString, _ => Some s
  | String p pat', String c s' =>
      if Ascii.eqb (upper p) (upper c) then literal pat' s' else None
  | String _ _, EmptyString => None
  end.

(** [[0-9A-F]{n}] at the head of [s]: the digits and what follows them. *)
Fixpoint hex_digits (n : nat) (s : string) : option (string * string) :=
  match n, s with
  | O, _ => Some (EmptyString, s)
  | S n', String c s' =>
      if hex_digit c then
        match hex_digits n' s' with
        | Some (digits, rest) => Some (String c digits, rest)
        | None => None
        end
      else None
  | S _, EmptyString => None
  end.

(** [\b] after a hexadecimal digit (a word character): the text ends or
    goes on with a character that is not a word character. *)
Definition boundary (s : string) : bool :=
  match s with
  | EmptyString => true
  | String c _ => negb (word c)
  end.

(** The pattern at the head of [s]: the two groups. *)
Definition match_here (s : string) : option (string * string) :=
  match literal "VID:PID=" s with
  | None => None
  | Some s1 =>
      match hex_digits 4 s1 with
      | None => None
      | Some (vendor_id, s2) =>
          match literal ":" s2 with
          | None => None
          | Some s3 =>
              match hex_digits 4 s3 with
              | None => None
              | Some (product_id, s4) =>
                  if boundary s4 then Some (vendor_id, product_id) else None
              end
          end
      end
  end.

(** [(m.group(1), m.group(2))] of the match, [None] when there is none. *)
Fixpoint search (s : string) : option (string * string) :=
  match match_here s with
  | Some groups => Some groups
  | None =>
      match s with
      | EmptyString => None
      | String _ s' => search s'
      end
  end.

End re.

(** The dictionary [ports_by_id], from (vendor id, product id) to the
    device name; an assignment to a key that is present replaces its
    value. *)
Module Dict.

Definition key : Type := (string * string)%type.

Definition t : Type := list (key * string).

Definition key_eqb (a b : key) : bool :=
  String.eqb (fst a) (fst b) && String.eqb (snd a) (snd b).

Fixpoint getitem (d : t) (k : key) : option string :=
  match d with
  | [] => None
  | (k', v) :: d' => if key_eqb k' k then Some v else getitem d' k
  end.

Fixpoint setitem (d : t) (k : key) (v : string) : t :=
  match d with
  | [] => [(k, v)]
  | (k', v') :: d' =>
      if key_eqb k' k then (k', v) :: d' else (k', v') :: setitem d' k v
  end.

End Dict.

(** The two [print] statements of [identify_ports]. *)
Inductive PortLine : Type :=
| Failed_to_match_USB_VendorID (hwid : string)
| Port_ids (port vendor_id product_id : string).

(** How [identify_ports] ends: it returns, or it raises an [Exception] with
    a message. *)
Inductive Located : Type :=
| Found (ports : PortIDs)
| Raised_Exception (message : string).

(** Lines 27-36: the body of the [for] loop on one entry. *)
Definition scan_port (ports_by_id : Dict.t) (p : ListPortInfo.t)
  : list PortLine * Dict.t :=
  match re.search (ListPortInfo.hwid p) with
  | None =>
      ([Failed_to_match_USB_VendorID (ListPortInfo.hwid p)], ports_by_id)
  | Some (vendor_id, product_id) =>
      ([Port_ids (ListPortInfo.device p) vendor_id product_id],
       Dict.setitem ports_by_id (vendor_id, product_id) (ListPortInfo.device p))
  end.

(** Lines 26-36: the [for] loop. *)
Fixpoint scan_ports (ports_by_id : Dict.t) (ports : list ListPortInfo.t)
  : list PortLine * Dict.t :=
  match ports with
  | [] => ([], ports_by_id)
  | p :: rest =>
      let (l1, d1) := scan_port ports_by_id p in
      let (l2, d2) := scan_ports d1 rest in
      (l1 ++ l2, d2)
  end.

(** Lines 20-44.  The argument is [sorted(comports())]: the entries in the
    order [pyserial] compares them in. *)
Definition identify_ports (sorted_ports : list ListPortInfo.t)
  : list PortLine * Located :=
  let (l, ports_by_id) := scan_ports [] sorted_ports in
  match Dict.getitem ports_by_id GPS_ID with
  | None => (l, Raised_Exception "Could not find the USB GPS device.")
  | Some gps_port =>
      match Dict.getitem ports_by_id NEXSTAR_ID with
      | None =>
          (l, Raised_Exception
                "Could not find the USB NexStar telescope device.")
      | Some telescope_port =>
          (l, Found {| gps := gps_port; telescope := telescope_port |})
      end
  end.

(** ** The script: lines 160-163 *)

(** What the script writes and does, in order: the lines of
    [identify_ports], the [print(ports)] of line 162, the events of
    [set_telescope_from_gps]. *)
Inductive Output : Type :=
| Locator (l : PortLine)
| Ports (ports : PortIDs)
| Core (ev : Event).

(** How the script ends: with the exception of [identify_ports], or as
    [set_telescope_from_gps] does. *)
Inductive Exit : Type :=
| Not_located (message : string)
| Ran (r : Result unit).

Definition main (sorted_ports : list ListPortInfo.t) (w : World)
  : list Output * Exit :=
  match identify_ports sorted_ports with
  | (l, Raised_Exception message) => (map Locator l, Not_located message)
  | (l, Found ports) =>
      let (t, r) := set_telescope_from_gps w ports in
      (map Locator l ++ Ports ports :: map Core t, Ran r)
  end.

(** Serial ports as [pyserial] describes them on Linux. *)
Module Devices.

Definition ublox : ListPortInfo.t :=
  ListPortInfo.Make "/dev/ttyACM0" "u-blox 7 - GPS/GNSS Receiver"
                    "USB VID:PID=1546:01A7 LOCATION=1-1.2:1.0".

Definition prolific (device : string) : ListPortInfo.t :=
  ListPortInfo.Make device "USB-Serial Controller"
                    "USB VID:PID=067B:23D3 LOCATION=1-1.3".

Definition builtin : ListPortInfo.t :=
  ListPortInfo.Make "/dev/ttyS0" "n/a" "n/a".

(** An adapter whose hardware id is written in lower case. *)
Definition lower_case : ListPortInfo.t :=
  ListPortInfo.Make "/dev/ttyUSB1" "USB-Serial Controller"
                    "USB vid:pid=067b:23d3 LOCATION=1-1.4".

End Devices.

(** ** Vocabulary of the properties *)

(** A position report the accumulator accepts: a GGA sentence whose HDOP
    is below the 3 of line 88 (also the default of [hdop]). *)
Definition qualifying (msg : NMEAMessage.t) : Prop :=
  NMEAMessage.msgID msg = "GGA"%string /\ (NMEAMessage.HDOP msg < 3)%Q.

(** A position report at or above that threshold. *)
Definition poor (msg : NMEAMessage.t) : Prop :=
  NMEAMessage.msgID msg = "GGA"%string /\ (3 <= NMEAMessage.HDOP msg)%Q.

(** A date report whose status is valid. *)
Definition valid_date (msg : NMEAMessage.t) : Prop :=
  NMEAMessage.msgID msg = "RMC"%string /\ NMEAMessage.status msg = "A"%string.

(** A sentence that is neither a position nor a date report. *)
Definition other_kind (msg : NMEAMessage.t) : Prop :=
  NMEAMessage.msgID msg <> "GGA"%string /\ NMEAMessage.msgID msg <> "RMC"%string.

(** The position variables are set together or not at all. *)
Definition coherent (st : Accumulator.t) : Prop :=
  (Accumulator.lat st = None <-> Accumulator.lon st = None) /\
  (Accumulator.lat st = None <-> Accumulator.time st = None).

Definition initial : Accumulator.t := Accumulator.Make None None None None.

(** Both serial ports open. *)
Definition ports_open (w : World) (ports : PortIDs) : Prop :=
  Serial w (gps ports) = None /\ Serial w (telescope ports) = None.

(** The Identify step fails with [ex]: [getModel] raises it, the model
    number is not a value of [NexstarModel] (a [ValueError]), or
    [getVersion] raises it. *)
Definition identification_fails (w : World) (ex : PyExc) : Prop :=
  on_getModel (controller w) = Raise ex \/
  (exists m, on_getModel (controller w) = Ok m /\
             NexstarModel w m = None /\ ex = ValueError) \/
  (exists m name, on_getModel (controller w) = Ok m /\
                  NexstarModel w m = Some name /\
                  on_getVersion (controller w) = Raise ex).

(** What leaving the [with] block adds to the trace: nothing when the
    block never returns. *)
Definition closing {A} (r : Result A) (l : list Event) : list Event :=
  match r with
  | Hang => []
  | _ => l
  end.

(** The daylight-saving flag computed at line 145 for a local datetime. *)
Definition dst_flag (dt_local : datetime.datetime) : Z :=
  if (0 <? datetime.dst dt_local)%Z then 1%Z else 0%Z.

(** The local datetime of lines 134-144 for a fix and a zone. *)
Definition local_time (f : Fix.t) (zone : datetime.tzinfo) : datetime.datetime :=
  datetime.astimezone
    (datetime.make
       (datetime.year (Fix.date f)) (datetime.month (Fix.date f))
       (datetime.day (Fix.date f)) (datetime.hour (Fix.time f))
       (datetime.minute (Fix.time f)) (datetime.second (Fix.time f))
       tz_utc)
    zone.

(** A date report whose status is not valid. *)
Definition invalid_date (msg : NMEAMessage.t) : Prop :=
  NMEAMessage.msgID msg = "RMC"%string /\ NMEAMessage.status msg <> "A"%string.

(** A record the loop discards or passes over. *)
Definition rejected (msg : NMEAMessage.t) : Prop :=
  poor msg \/ invalid_date msg \/ other_kind msg.

(** The tests of lines 74 and 88, and of lines 94 and 96, as booleans. *)
Definition qualifyingb (msg : NMEAMessage.t) : bool :=
  String.eqb (NMEAMessage.msgID msg) "GGA"
  && Qlt_bool (NMEAMessage.HDOP msg) 3.

Definition valid_dateb (msg : NMEAMessage.t) : bool :=
  String.eqb (NMEAMessage.msgID msg) "RMC"
  && String.eqb (NMEAMessage.status msg) "A".

(** The most recent record of [msgs] that passes [test]. *)
Definition latest (test : NMEAMessage.t -> bool) (msgs : list NMEAMessage.t)
  : option NMEAMessage.t :=
  find test (rev msgs).

(** The opening or closing of a serial port. *)
Definition is_port_event (ev : Event) : bool :=
  match ev with
  | Opened _ | Closed _ => true
  | _ => false
  end.

(** The writes to the controller among the events of a trace, in order. *)
Definition writes (l : list Event) : list Event := filter is_write l.

(** The two writes of lines 147-148 for a fix and a zone. *)
Definition push_time (f : Fix.t) (zone : datetime.tzinfo) : Event :=
  Sent (setTime (local_time f zone) (dst_flag (local_time f zone))).

Definition push_location (f : Fix.t) : Event :=
  Sent (setLocation (Fix.lat f) (Fix.lon f)).

(** The four lines printed at lines 150-153. *)
Definition report (f : Fix.t) (zone : datetime.tzinfo) : list Event :=
  [Print (UTC_ (datetime.make
                  (datetime.year (Fix.date f)) (datetime.month (Fix.date f))
                  (datetime.day (Fix.date f)) (datetime.hour (Fix.time f))
                  (datetime.minute (Fix.time f))
                  (datetime.second (Fix.time f)) tz_utc));
   Print (Local_ (local_time f zone));
   Print (DST_ (negb (dst_flag (local_time f zone) =? 0)%Z));
   Print (GPS_ (Fix.lat f) (Fix.lon f))].

(** The events of lines 155-157 when the three read-backs are answered. *)
Definition read_backs (loc t pos : string) : list Event :=
  [Sent getLocation; Print (Set_telescope_location loc);
   Sent getTime; Print (Set_telescope_time t);
   Sent getPosition; Print (Current_telescope_position pos)].

(** Everything a run needs in order to return: the ports open, Identify
    returns, a fix is acquired, its zone is found and the controller answers
    the two writes and the three read-backs. *)
Definition completes (w : World) (ports : PortIDs) : Prop :=
  ports_open w ports /\
  value (identify w) = Ok tt /\
  exists f name zone loc t pos,
    value (wait_for_fix (nmea w) default_hdop) = Emitted f /\
    timezone_at w (Fix.lat f) (Fix.lon f) = Some name /\
    zones w name = Some zone /\
    on_setTime (controller w) (local_time f zone)
               (dst_flag (local_time f zone)) = Ok tt /\
    on_setLocation (controller w) (Fix.lat f) (Fix.lon f) = Ok tt /\
    on_getLocation (controller w) = Ok loc /\
    on_getTime (controller w) = Ok t /\
    on_getPosition (controller w) = Ok pos.

(** Worlds in which something goes wrong. *)
Module Faults.

(** The serial port [port] does not open. *)
Definition unplugged (port : string) : World :=
  {| Serial := fun p => if String.eqb p port then Some SerialException
                        else None;
     controller := Scenario.healthy;
     NexstarModel := fun _ => Some "NexstarModel.SE_6_8"%string;
     nmea := Scenario.good_sky;
     timezone_at := Scenario.finder;
     zones := Scenario.pytz_zones |}.

(** The operator interrupts the program while [getModel] is waiting. *)
Definition interrupted : NexstarHandController :=
  {| on_getModel := Raise KeyboardInterrupt;
     on_getVersion := on_getVersion Scenario.healthy;
     on_setTime := on_setTime Scenario.healthy;
     on_setLocation := on_setLocation Scenario.healthy;
     on_getLocation := on_getLocation Scenario.healthy;
     on_getTime := on_getTime Scenario.healthy;
     on_getPosition := on_getPosition Scenario.healthy |}.

(** A controller that does not accept [setTime]. *)
Definition rejects_time : NexstarHandController :=
  {| on_getModel := on_getModel Scenario.healthy;
     on_getVersion := on_getVersion Scenario.healthy;
     on_setTime := fun _ _ => Raise NexstarProtocolError;
     on_setLocation := on_setLocation Scenario.healthy;
     on_getLocation := on_getLocation Scenario.healthy;
     on_getTime := on_getTime Scenario.healthy;
     on_getPosition := on_getPosition Scenario.healthy |}.

(** A controller that does not accept [setLocation]. *)
Definition rejects_location : NexstarHandController :=
  {| on_getModel := on_getModel Scenario.healthy;
     on_getVersion := on_getVersion Scenario.healthy;
     on_setTime := on_setTime Scenario.healthy;
     on_setLocation := fun _ _ => Raise NexstarProtocolError;
     on_getLocation := on_getLocation Scenario.healthy;
     on_getTime := on_getTime Scenario.healthy;
     on_getPosition := on_getPosition Scenario.healthy |}.

(** A timezone index that names a zone the database no longer has. *)
Definition renamed_zone : World :=
  {| Serial := fun _ => None;
     controller := Scenario.healthy;
     NexstarModel := fun _ => Some "NexstarModel.SE_6_8"%string;
     nmea := Scenario.good_sky;
     timezone_at := fun _ _ => Some "US/Pacific-New"%string;
     zones := Scenario.pytz_zones |}.

End Faults.

(** The text of an ASCII string in upper case. *)
Fixpoint upper_string (s : string) : string :=
  match s with
  | EmptyString => EmptyString
  | String c s' => String (re.upper c) (upper_string s')
  end.

(** Every character of [s] is a hexadecimal digit. *)
Fixpoint all_hex (s : string) : bool :=
  match s with
  | EmptyString => true
  | String c s' => re.hex_digit c && all_hex s'
  end.

(** [s] holds a vendor and a product id the way the pattern asks for:
    [VID:PID=] in any case, four hexadecimal digits, a colon, four
    hexadecimal digits, and then the end of the text or a character that
    cannot belong to a word. *)
Definition holds_ids (s vendor_id product_id : string) : Prop :=
  exists before key after,
    s = (before ++ key ++ vendor_id ++ ":" ++ product_id ++ after)%string /\
    upper_string key = "VID:PID="%string /\
    String.length vendor_id = 4%nat /\ all_hex vendor_id = true /\
    String.length product_id = 4%nat /\ all_hex product_id = true /\
    re.boundary after = true.

(** The hardware id of the entry yields the groups [id]. *)
Definition has_id (id : string * string) (p : ListPortInfo.t) : bool :=
  match re.search (ListPortInfo.hwid p) with
  | Some groups => Dict.key_eqb groups id
  | None => false
  end.

(** The last entry of the list whose hardware id yields [id]. *)
Definition last_with_id (id : string * string) (ports : list ListPortInfo.t)
  : option ListPortInfo.t :=
  find (has_id id) (rev ports).

(** The entry [p] of [ports] yields [id] and no entry after it does. *)
Definition is_last_with_id (id : string * string) (ports : list ListPortInfo.t)
           (p : ListPortInfo.t) : Prop :=
  exists before after,
    ports = before ++ p :: after /\
    re.search (ListPortInfo.hwid p) = Some id /\
    forall q, In q after -> re.search (ListPortInfo.hwid q) <> Some id.

(** ** Basic facts *)

Lemma Qlt_bool_lt (x y : Q) : Qlt_bool x y = true <-> (x < y)%Q.
Proof. unfold Qlt_bool, Qlt. apply Z.ltb_lt. Qed.

Lemma Qlt_bool_ge (x y : Q) : Qlt_bool x y = false <-> (y <= x)%Q.
Proof. unfold Qlt_bool, Qle. apply Z.ltb_ge. Qed.

Lemma value_and_then {A B} (m : Log A) (k : A -> Log B) :
  value (and_then m k) = value (k (value m)).
Proof.
  destruct m as [l a]. unfold and_then, value. simpl.
  destruct (k a); reflexivity.
Qed.

Lemma trace_and_then {A B} (m : Log A) (k : A -> Log B) :
  trace (and_then m k) = trace m ++ trace (k (value m)).
Proof.
  destruct m as [l a]. unfold and_then, value, trace. simpl.
  destruct (k a); reflexivity.
Qed.

(** The effect of the loop body on the local variables, by cases. *)
Lemma value_loop_body (st : Accumulator.t) (msg : NMEAMessage.t) :
  value (loop_body st msg) =
  if String.eqb (NMEAMessage.msgID msg) "GGA" then
    if Qlt_bool (NMEAMessage.HDOP msg) 3 then
      Accumulator.Make (Some (NMEAMessage.lat msg)) (Some (NMEAMessage.lon msg))
                       (Accumulator.date st) (Some (NMEAMessage.time msg))
    else st
  else if String.eqb (NMEAMessage.msgID msg) "RMC" then
    if String.eqb (NMEAMessage.status msg) "A" then
      Accumulator.Make (Accumulator.lat st) (Accumulator.lon st)
                       (Some (NMEAMessage.date msg)) (Accumulator.time st)
    else st
  else st.
Proof.
  unfold loop_body.
  destruct (String.eqb (NMEAMessage.msgID msg) "GGA") eqn:G.
  - apply String.eqb_eq in G. rewrite G. simpl.
    destruct (Qlt_bool (NMEAMessage.HDOP msg) 3); reflexivity.
  - destruct (String.eqb (NMEAMessage.msgID msg) "RMC"); simpl;
      [destruct (String.eqb (NMEAMessage.status msg) "A")|]; reflexivity.
Qed.

Lemma loop_body_qualifying st msg :
  qualifying msg ->
  value (loop_body st msg) =
  Accumulator.Make (Some (NMEAMessage.lat msg)) (Some (NMEAMessage.lon msg))
                   (Accumulator.date st) (Some (NMEAMessage.time msg)).
Proof.
  intros [G H]. rewrite value_loop_body, G. simpl.
  apply Qlt_bool_lt in H. rewrite H. reflexivity.
Qed.

Lemma loop_body_poor st msg : poor msg -> value (loop_body st msg) = st.
Proof.
  intros [G H]. rewrite value_loop_body, G. simpl.
  apply Qlt_bool_ge in H. rewrite H. reflexivity.
Qed.

Lemma loop_body_valid_date st msg :
  valid_date msg ->
  value (loop_body st msg) =
  Accumulator.Make (Accumulator.lat st) (Accumulator.lon st)
                   (Some (NMEAMessage.date msg)) (Accumulator.time st).
Proof.
  intros [G H]. rewrite value_loop_body, G, H. reflexivity.
Qed.

Lemma loop_body_other_kind st msg :
  other_kind msg -> loop_body st msg = pure st.
Proof.
  intros [G R]. unfold loop_body.
  apply String.eqb_neq in G. apply String.eqb_neq in R.
  rewrite G, R. reflexivity.
Qed.

(** Case analysis on the tests of the loop body, with the tests turned into
    propositions. *)
Ltac loop_body_cases msg :=
  let G := fresh "G" in
  let R := fresh "R" in
  let H := fresh "H" in
  let S := fresh "S" in
  rewrite ?value_loop_body;
  destruct (String.eqb (NMEAMessage.msgID msg) "GGA") eqn:G;
  [ apply String.eqb_eq in G;
    destruct (Qlt_bool (NMEAMessage.HDOP msg) 3) eqn:H;
    [ apply Qlt_bool_lt in H | apply Qlt_bool_ge in H ]
  | apply String.eqb_neq in G;
    destruct (String.eqb (NMEAMessage.msgID msg) "RMC") eqn:R;
    [ apply String.eqb_eq in R;
      destruct (String.eqb (NMEAMessage.status msg) "A") eqn:S;
      [ apply String.eqb_eq in S | apply String.eqb_neq in S ]
    | apply String.eqb_neq in R ] ];
  cbn [Accumulator.lat Accumulator.lon Accumulator.date Accumulator.time].

Lemma loop_body_coherent st msg :
  coherent st -> coherent (value (loop_body st msg)).
Proof.
  unfold coherent. intros [A B].
  loop_body_cases msg; try (split; assumption).
  split; split; discriminate.
Qed.

Lemma loop_body_position st msg :
  Accumulator.lat (value (loop_body st msg)) <> None <->
  Accumulator.lat st <> None \/ qualifying msg.
Proof.
  unfold qualifying.
  loop_body_cases msg; split; intros K; auto;
    try (destruct K as [K | [K1 K2]]; [assumption | ]);
    try discriminate; try congruence.
  exfalso. apply (Qlt_not_le _ _ K2). assumption.
Qed.

Lemma loop_body_date st msg :
  Accumulator.date (value (loop_body st msg)) <> None <->
  Accumulator.date st <> None \/ valid_date msg.
Proof.
  unfold valid_date.
  loop_body_cases msg; split; intros K; auto;
    try (destruct K as [K | [K1 K2]]; [assumption | ]);
    try discriminate; try congruence.
Qed.

Lemma all_populated_None st :
  coherent st ->
  (all_populated st = None <->
   Accumulator.lat st = None \/ Accumulator.date st = None).
Proof.
  unfold coherent, all_populated. intros [A B].
  destruct (Accumulator.lat st), (Accumulator.lon st),
    (Accumulator.date st), (Accumulator.time st);
    split; intros K; auto; try discriminate;
    try (destruct K; discriminate);
    try (destruct A as [_ A]; specialize (A eq_refl); discriminate);
    try (destruct B as [_ B]; specialize (B eq_refl); discriminate).
Qed.

Lemma all_populated_Some st f :
  all_populated st = Some f ->
  st = Accumulator.Make (Some (Fix.lat f)) (Some (Fix.lon f))
                        (Some (Fix.date f)) (Some (Fix.time f)).
Proof.
  unfold all_populated. destruct st as [[la|] [lo|] [d|] [t|]]; simpl;
    intros K; try discriminate.
  injection K as <-. reflexivity.
Qed.

Lemma wait_loop_Read st msg rest :
  value (wait_loop st (Read msg :: rest)) =
  match all_populated (value (loop_body st msg)) with
  | Some f => Emitted f
  | None => value (wait_loop (value (loop_body st msg)) rest)
  end.
Proof.
  cbn [wait_loop]. rewrite value_and_then.
  destruct (all_populated (value (loop_body st msg))); reflexivity.
Qed.

(** The loop returns a [Fix] exactly when the position and the date are
    known, from before or from the records read. *)
Lemma wait_loop_emits st msgs :
  coherent st -> all_populated st = None ->
  ((exists f, value (wait_loop st (map Read msgs)) = Emitted f) <->
   (Accumulator.lat st <> None \/ Exists qualifying msgs) /\
   (Accumulator.date st <> None \/ Exists valid_date msgs)).
Proof.
  revert st. induction msgs as [|msg rest IH]; intros st C N.
  - simpl. split.
    + intros [f K]. discriminate.
    + intros [[P | P] [D | D]]; try (inversion P; fail); try (inversion D; fail).
      apply (all_populated_None C) in N. destruct N; contradiction.
  - cbn [map]. rewrite wait_loop_Read.
    pose proof (loop_body_coherent msg C) as C'.
    pose proof (loop_body_position st msg) as P.
    pose proof (loop_body_date st msg) as D.
    rewrite 2 Exists_cons.
    destruct (all_populated (value (loop_body st msg))) as [f|] eqn:E.
    + split; [intros _ | intros _; eauto].
      apply all_populated_Some in E. rewrite E in P, D. simpl in P, D.
      split.
      * destruct (proj1 P) as [K | K]; [discriminate | auto | auto].
      * destruct (proj1 D) as [K | K]; [discriminate | auto | auto].
    + rewrite (IH _ C' E). rewrite P, D. tauto.
Qed.

(** The record on which the loop returns: before it the loop was still
    waiting, and the [Fix] holds the variables as they are after it. *)
Lemma wait_loop_emitted_at st msgs f :
  all_populated st = None ->
  value (wait_loop st (map Read msgs)) = Emitted f ->
  exists pre msg post st1,
    msgs = pre ++ msg :: post /\
    value (wait_loop st (map Read pre)) = Blocked st1 /\
    all_populated st1 = None /\
    all_populated (value (loop_body st1 msg)) = Some f.
Proof.
  revert st. induction msgs as [|msg rest IH]; intros st N K.
  - discriminate.
  - cbn [map] in K. rewrite wait_loop_Read in K.
    destruct (all_populated (value (loop_body st msg))) as [g|] eqn:E.
    + injection K as ->. exists [], msg, rest, st. auto.
    + destruct (IH _ E K) as (pre & m & post & st1 & -> & B & N1 & F).
      exists (msg :: pre), m, post, st1. repeat split; auto.
      cbn [map]. rewrite wait_loop_Read, E. exact B.
Qed.

(** Reading on from where the loop is blocked. *)
Lemma wait_loop_app st reads1 reads2 :
  value (wait_loop st (reads1 ++ reads2)) =
  match value (wait_loop st reads1) with
  | Blocked st1 => value (wait_loop st1 reads2)
  | done => done
  end.
Proof.
  revert st. induction reads1 as [|[msg|] rest IH]; intros st.
  - reflexivity.
  - rewrite <- app_comm_cons, 2 wait_loop_Read.
    destruct (all_populated (value (loop_body st msg))); [reflexivity | apply IH].
  - reflexivity.
Qed.

(** While the loop waits, the variables are not all populated. *)
Lemma wait_loop_Blocked st reads st1 :
  all_populated st = None ->
  value (wait_loop st reads) = Blocked st1 ->
  all_populated st1 = None.
Proof.
  revert st. induction reads as [|[msg|] rest IH]; intros st N K.
  - injection K as <-. exact N.
  - rewrite wait_loop_Read in K.
    destruct (all_populated (value (loop_body st msg))) eqn:E;
      [discriminate | exact (IH _ E K)].
  - discriminate.
Qed.

Lemma consume_poor st msgs : Forall poor msgs -> consume st msgs = st.
Proof.
  unfold consume. induction 1 as [|msg rest P _ IH]; simpl.
  - reflexivity.
  - rewrite (loop_body_poor st P). exact IH.
Qed.

Lemma wait_loop_poor st msgs :
  Forall poor msgs -> all_populated st = None ->
  value (wait_loop st (map Read msgs)) = Blocked st.
Proof.
  induction 1 as [|msg rest P _ IH]; intros N.
  - reflexivity.
  - cbn [map]. rewrite wait_loop_Read, (loop_body_poor st P), N. exact (IH N).
Qed.

Lemma Exists_Permutation {A} (P : A -> Prop) (l l' : list A) :
  Permutation l l' -> Exists P l -> Exists P l'.
Proof.
  intros HP HE. apply Exists_exists in HE. destruct HE as (x & I & Px).
  apply Exists_exists. exists x. split; [exact (Permutation_in _ HP I) | exact Px].
Qed.

(** ** The fix accumulator: the claims *)

(** C1.  On every sequence of records, [wait_for_fix] returns a [Fix]
    exactly when the sequence holds a qualifying position report (GGA with
    HDOP below 3, the threshold the loop applies) and a valid date report
    (RMC with status "A"); the order of the records does not matter.  The
    [Fix] is returned on the first record after which the four variables
    are all populated, and it holds their values at that moment. *)
Theorem C1_fix_emitted_iff_both_seen (msgs : list NMEAMessage.t) (hdop : Z) :
  ((exists f, value (wait_for_fix (map Read msgs) hdop) = Emitted f) <->
   Exists qualifying msgs /\ Exists valid_date msgs) /\
  (forall msgs', Permutation msgs msgs' ->
     ((exists f, value (wait_for_fix (map Read msgs) hdop) = Emitted f) <->
      (exists f', value (wait_for_fix (map Read msgs') hdop) = Emitted f'))) /\
  (forall f, value (wait_for_fix (map Read msgs) hdop) = Emitted f ->
     exists pre msg post st,
       msgs = pre ++ msg :: post /\
       value (wait_for_fix (map Read pre) hdop) = Blocked st /\
       all_populated st = None /\
       value (loop_body st msg) =
       Accumulator.Make (Some (Fix.lat f)) (Some (Fix.lon f))
                        (Some (Fix.date f)) (Some (Fix.time f))).
Proof.
  assert (C : coherent initial) by (split; split; reflexivity).
  assert (N : all_populated initial = None) by reflexivity.
  assert (E : forall l,
             (exists f, value (wait_for_fix (map Read l) hdop) = Emitted f) <->
             Exists qualifying l /\ Exists valid_date l).
  { intros l. unfold wait_for_fix. fold initial.
    rewrite (wait_loop_emits l C N). simpl.
    split.
    - intros [[P | P] [D | D]]; try congruence. split; assumption.
    - intros [P D]. split; right; assumption. }
  split; [apply E | split].
  - intros msgs' HP. rewrite 2 E.
    split; intros [P D]; split;
      eauto using Exists_Permutation, Permutation_sym.
  - intros f K. unfold wait_for_fix in *. fold initial in *.
    destruct (@wait_loop_emitted_at initial msgs f N K)
      as (pre & msg & post & st & M & B & N1 & F).
    exists pre, msg, post, st. repeat split; auto.
    apply all_populated_Some. exact F.
Qed.

(** C1 on the scenario of a position report of HDOP 1.5 followed by a
    valid date report. *)
Lemma C1_fix_emitted_witness :
  exists f,
    value (wait_for_fix (map Read [Scenario.gga (3 # 2); Scenario.rmc "A"]) 3)
    = Emitted f.
Proof.
  apply (proj1 (C1_fix_emitted_iff_both_seen
                  [Scenario.gga (3 # 2); Scenario.rmc "A"] 3)).
  split.
  - apply Exists_cons_hd. split; [reflexivity | reflexivity].
  - apply Exists_cons_tl, Exists_cons_hd. split; reflexivity.
Defined.

(** C2.  The loop compares the HDOP with the literal 3 and never with its
    parameter [hdop]: the result is the same for every [hdop]; with
    [hdop = 5] a report of HDOP 4 is discarded, with [hdop = 2] a report of
    HDOP 2.5 is accepted. *)
Theorem C2_hdop_parameter_is_ignored :
  (forall reads hdop hdop', wait_for_fix reads hdop = wait_for_fix reads hdop') /\
  value (wait_for_fix [Read (Scenario.gga 4); Read (Scenario.rmc "A")] 5)
  = Blocked (Accumulator.Make None None (Some (datetime.Date 2024 6 1)) None) /\
  value (wait_for_fix [Read (Scenario.gga (5 # 2)); Read (Scenario.rmc "A")] 2)
  = Emitted (Fix.Make 34 (-118) (datetime.Date 2024 6 1)
                      (datetime.Time 17 30 0 0)).
Proof.
  split; [reflexivity | split; vm_compute; reflexivity].
Qed.

(** C6.  Position reports whose HDOP is at or above the threshold (3) leave
    the accumulator as it was: the variables after the whole sequence are
    the variables before it, and the loop is still waiting with them. *)
Theorem C6_poor_reports_leave_state (st : Accumulator.t)
        (msgs : list NMEAMessage.t) :
  Forall poor msgs ->
  consume st msgs = st /\
  (all_populated st = None ->
   value (wait_loop st (map Read msgs)) = Blocked st).
Proof.
  intros P. split.
  - exact (consume_poor st P).
  - exact (wait_loop_poor st P).
Qed.

Lemma C6_poor_reports_witness :
  consume initial [Scenario.gga 4; Scenario.gga 3; Scenario.gga 20] = initial /\
  value (wait_loop initial
           (map Read [Scenario.gga 4; Scenario.gga 3; Scenario.gga 20]))
  = Blocked initial.
Proof.
  assert (P : Forall poor [Scenario.gga 4; Scenario.gga 3; Scenario.gga 20]).
  { repeat constructor; vm_compute; discriminate. }
  destruct (C6_poor_reports_leave_state initial P) as [A B].
  split; [exact A | exact (B eq_refl)].
Defined.

(** C7.  Once a position report with HDOP below the threshold (3) has been
    consumed, latitude, longitude and time of day are that report's; they
    are still that report's after any further position reports with HDOP at
    or above the threshold. *)
Theorem C7_qualifying_report_is_kept (st : Accumulator.t)
        (msg : NMEAMessage.t) (worse : list NMEAMessage.t) :
  qualifying msg -> Forall poor worse ->
  let st1 := value (loop_body st msg) in
  (Accumulator.lat st1 = Some (NMEAMessage.lat msg) /\
   Accumulator.lon st1 = Some (NMEAMessage.lon msg) /\
   Accumulator.time st1 = Some (NMEAMessage.time msg)) /\
  consume st1 worse = st1 /\
  (Accumulator.lat (consume st (msg :: worse)) = Some (NMEAMessage.lat msg) /\
   Accumulator.lon (consume st (msg :: worse)) = Some (NMEAMessage.lon msg) /\
   Accumulator.time (consume st (msg :: worse)) = Some (NMEAMessage.time msg)).
Proof.
  intros Q P st1.
  assert (V : (Accumulator.lat st1 = Some (NMEAMessage.lat msg) /\
               Accumulator.lon st1 = Some (NMEAMessage.lon msg) /\
               Accumulator.time st1 = Some (NMEAMessage.time msg))).
  { unfold st1. rewrite (loop_body_qualifying st Q). auto. }
  assert (K : consume st1 worse = st1) by exact (consume_poor st1 P).
  split; [exact V | split; [exact K |]].
  change (consume st (msg :: worse)) with (consume st1 worse).
  rewrite K. exact V.
Qed.

Lemma C7_qualifying_report_witness :
  Accumulator.lat
    (consume initial [Scenario.gga (3 # 2); Scenario.gga 4; Scenario.gga 9])
  = Some 34.
Proof.
  assert (Q : qualifying (Scenario.gga (3 # 2))) by (split; reflexivity).
  assert (P : Forall poor [Scenario.gga 4; Scenario.gga 9]).
  { repeat constructor; vm_compute; discriminate. }
  exact (proj1 (proj2 (proj2 (C7_qualifying_report_is_kept initial Q P)))).
Defined.

(** C10.  A record that is neither a GGA nor an RMC sentence leaves the
    four variables as they are (and prints nothing); when the loop is
    waiting, it is still waiting with the same variables after such a
    record, so no [Fix] is returned on it; and taking the record out of the
    input changes nothing of what [wait_for_fix] does. *)
Theorem C10_other_records_are_inert (msg : NMEAMessage.t) :
  other_kind msg ->
  (forall st, loop_body st msg = pure st) /\
  (forall reads hdop st,
     value (wait_for_fix reads hdop) = Blocked st ->
     value (wait_for_fix (reads ++ [Read msg]) hdop) = Blocked st) /\
  (forall reads rest hdop,
     value (wait_for_fix (reads ++ Read msg :: rest) hdop) =
     value (wait_for_fix (reads ++ rest) hdop)).
Proof.
  intros O.
  assert (S : forall st rest, all_populated st = None ->
              value (wait_loop st (Read msg :: rest)) = value (wait_loop st rest)).
  { intros st rest N.
    rewrite wait_loop_Read, (loop_body_other_kind st O). unfold pure, value.
    simpl. rewrite N. reflexivity. }
  split; [intros st; exact (loop_body_other_kind st O) | split].
  - intros reads hdop st B. unfold wait_for_fix in *.
    rewrite wait_loop_app, B.
    rewrite S; [reflexivity | exact (@wait_loop_Blocked initial _ _ eq_refl B)].
  - intros reads rest hdop. unfold wait_for_fix.
    rewrite 2 wait_loop_app.
    destruct (value (wait_loop _ reads)) as [f| |st] eqn:B; try reflexivity.
    apply S. exact (@wait_loop_Blocked initial _ _ eq_refl B).
Qed.

Lemma C10_other_records_witness :
  value (wait_for_fix
           ([Read (Scenario.gga (3 # 2))] ++ [Read Scenario.gsv]) 3)
  = Blocked (Accumulator.Make (Some 34) (Some (-118)) None
                              (Some (datetime.Time 17 30 0 0))).
Proof.
  assert (O : other_kind Scenario.gsv) by (split; discriminate).
  apply (proj1 (proj2 (C10_other_records_are_inert O))).
  reflexivity.
Defined.

(** ** The synchronisation run: basic facts *)

Lemma bind_unfold {A B} (m : Run A) (k : A -> Run B) :
  bind m k =
  match value m with
  | Ok a => (trace m ++ trace (k a), value (k a))
  | Raise e => (trace m, Raise e)
  | Hang => (trace m, Hang)
  end.
Proof.
  destruct m as [l [a|e|]]; simpl; try reflexivity.
  destruct (k a); reflexivity.
Qed.

Lemma bind_Ok {A B} (m : Run A) (k : A -> Run B) a :
  value m = Ok a ->
  bind m k = (trace m ++ trace (k a), value (k a)).
Proof. intros H. rewrite bind_unfold, H. reflexivity. Qed.

Lemma In_trace_bind {A B} (m : Run A) (k : A -> Run B) ev :
  In ev (trace (bind m k)) ->
  In ev (trace m) \/ exists a, value m = Ok a /\ In ev (trace (k a)).
Proof.
  rewrite bind_unfold. destruct (value m) as [a|e|] eqn:V; simpl; auto.
  intros H. apply in_app_or in H. destruct H; eauto.
Qed.

Lemma with_Serial_open {A} w port (body : Run A) :
  Serial w port = None ->
  with_Serial w port body =
  (Opened port :: trace body ++ closing (value body) [Closed port], value body).
Proof.
  intros H. unfold with_Serial. rewrite H.
  destruct body as [l [a|e|]]; simpl; try reflexivity.
  rewrite app_nil_r. reflexivity.
Qed.

Lemma In_trace_with_Serial {A} w port (body : Run A) ev :
  In ev (trace (with_Serial w port body)) ->
  ev = Opened port \/ ev = Closed port \/ In ev (trace body).
Proof.
  unfold with_Serial. destruct (Serial w port); [intros [] |].
  destruct body as [l [a|e|]]; simpl;
    intros [H | H]; auto;
    try (apply in_app_or in H; destruct H as [H | [H | []]]; auto).
Qed.

Lemma value_with_Serial_not_Ok {A} w port (body : Run A) a :
  value (with_Serial w port body) = Ok a -> value body = Ok a.
Proof.
  unfold with_Serial. destruct (Serial w port); [discriminate |].
  destruct body as [l [b|e|]]; simpl; auto.
Qed.

(** The loop prints and does nothing else. *)
Lemma loop_body_prints st msg ev :
  In ev (trace (loop_body st msg)) -> exists l, ev = Print l.
Proof.
  unfold loop_body.
  destruct (String.eqb (NMEAMessage.msgID msg) "GGA");
    destruct (Qlt_bool (NMEAMessage.HDOP msg) 3);
    destruct (String.eqb (NMEAMessage.msgID msg) "RMC");
    destruct (String.eqb (NMEAMessage.status msg) "A");
    simpl; intros H;
    repeat (destruct H as [H | H]; [eauto |]); destruct H.
Qed.

Lemma wait_loop_prints st reads ev :
  In ev (trace (wait_loop st reads)) -> exists l, ev = Print l.
Proof.
  revert st. induction reads as [|[msg|] rest IH]; intros st; simpl.
  - intros [].
  - rewrite trace_and_then. intros H. apply in_app_or in H.
    destruct H as [H | H]; [exact (loop_body_prints _ _ _ H) |].
    destruct (all_populated (value (loop_body st msg))); [destruct H | eauto].
  - intros [].
Qed.

Lemma call_wait_for_fix_eq w :
  call_wait_for_fix w =
  (trace (wait_for_fix (nmea w) default_hdop),
   returned (value (wait_for_fix (nmea w) default_hdop))).
Proof.
  unfold call_wait_for_fix. destruct (wait_for_fix _ _); reflexivity.
Qed.

Lemma call_wait_for_fix_no_write w : no_write (trace (call_wait_for_fix w)).
Proof.
  rewrite call_wait_for_fix_eq. intros ev H. simpl in H.
  destruct (wait_loop_prints _ _ _ H) as [l ->]. reflexivity.
Qed.

Ltac in_cases H :=
  simpl in H;
  repeat (destruct H as [H | H]; [subst; try reflexivity; try discriminate |]);
  try (destruct H).

(** Case analysis on whatever the computation in the goal inspects next. *)
Ltac run_cases :=
  repeat (simpl;
          match goal with
          | |- context [match ?x with _ => _ end] =>
              let T := type of x in
              match T with
              | Result _ => destruct x
              | option _ => destruct x
              | bool => destruct x
              end
          end);
  simpl.

Lemma identify_no_write w : no_write (trace (identify w)).
Proof.
  intros ev. unfold identify, to_NexstarModel, try_except_Exception, bind,
    call, print, emit, ret, raise, trace.
  run_cases; intros H; in_cases H.
Qed.

Lemma verify_no_write w : no_write (trace (verify w)).
Proof.
  intros ev. unfold verify, bind, call, print, emit, trace.
  run_cases; intros H; in_cases H.
Qed.

Lemma bind_ret {A B} (a : A) (k : A -> Run B) : bind (ret a) k = k a.
Proof. unfold bind, ret. destruct (k a); reflexivity. Qed.

Lemma resolve_and_push_no_zone w f :
  timezone_at w (Fix.lat f) (Fix.lon f) = None ->
  resolve_and_push w f = raise UnknownTimeZoneError.
Proof. intros H. unfold resolve_and_push. rewrite H. reflexivity. Qed.

Lemma resolve_and_push_unknown_zone w f name :
  timezone_at w (Fix.lat f) (Fix.lon f) = Some name ->
  zones w name = None ->
  resolve_and_push w f = raise UnknownTimeZoneError.
Proof.
  intros H Z. unfold resolve_and_push, pytz_timezone. rewrite H, Z.
  reflexivity.
Qed.

(** [resolve_and_push] once the zone is found. *)
Lemma resolve_and_push_zone w f name zone :
  timezone_at w (Fix.lat f) (Fix.lon f) = Some name ->
  zones w name = Some zone ->
  resolve_and_push w f =
  (call (setTime (local_time f zone) (dst_flag (local_time f zone)))
        (on_setTime (controller w) (local_time f zone)
                    (dst_flag (local_time f zone))) ;;
   call (setLocation (Fix.lat f) (Fix.lon f))
        (on_setLocation (controller w) (Fix.lat f) (Fix.lon f)) ;;
   print (UTC_ (datetime.make
                  (datetime.year (Fix.date f)) (datetime.month (Fix.date f))
                  (datetime.day (Fix.date f)) (datetime.hour (Fix.time f))
                  (datetime.minute (Fix.time f))
                  (datetime.second (Fix.time f)) tz_utc)) ;;
   print (Local_ (local_time f zone)) ;;
   print (DST_ (negb (dst_flag (local_time f zone) =? 0)%Z)) ;;
   print (GPS_ (Fix.lat f) (Fix.lon f)))%run.
Proof.
  intros H Z. unfold resolve_and_push, pytz_timezone. rewrite H, Z.
  rewrite bind_ret. reflexivity.
Qed.

(** The events of [resolve_and_push]: nothing when the zone is not found;
    otherwise [setTime] with the local time and the flag of its own
    daylight-saving offset, then, if that returned, [setLocation], and the
    four prints. *)
Lemma resolve_and_push_events w f ev :
  In ev (trace (resolve_and_push w f)) ->
  exists name zone,
    timezone_at w (Fix.lat f) (Fix.lon f) = Some name /\
    zones w name = Some zone /\
    (ev = Sent (setTime (local_time f zone) (dst_flag (local_time f zone))) \/
     ev = Sent (setLocation (Fix.lat f) (Fix.lon f)) \/
     exists l, ev = Print l).
Proof.
  destruct (timezone_at w (Fix.lat f) (Fix.lon f)) as [name|] eqn:T;
    [| rewrite (resolve_and_push_no_zone w f T); intros []].
  destruct (zones w name) as [zone|] eqn:Z;
    [| rewrite (resolve_and_push_unknown_zone w f T Z); intros []].
  rewrite (resolve_and_push_zone w f T Z).
  intros H. exists name, zone. split; [reflexivity | split; [exact Z |]].
  revert H. unfold bind, call, print, emit, trace.
  destruct (on_setTime (controller w) _ _) as [[]|?|];
    [destruct (on_setLocation (controller w) _ _) as [[]|?|] | |];
    simpl; intros H;
    repeat (destruct H as [H | H]; [subst; eauto |]); destruct H.
Qed.

(** When both writes return, the trace of [resolve_and_push] is the two
    writes followed by the four prints. *)
Lemma resolve_and_push_Ok w f :
  value (resolve_and_push w f) = Ok tt ->
  exists zone,
    trace (resolve_and_push w f) =
    [Sent (setTime (local_time f zone) (dst_flag (local_time f zone)));
     Sent (setLocation (Fix.lat f) (Fix.lon f));
     Print (UTC_ (datetime.make
                    (datetime.year (Fix.date f)) (datetime.month (Fix.date f))
                    (datetime.day (Fix.date f)) (datetime.hour (Fix.time f))
                    (datetime.minute (Fix.time f))
                    (datetime.second (Fix.time f)) tz_utc));
     Print (Local_ (local_time f zone));
     Print (DST_ (negb (dst_flag (local_time f zone) =? 0)%Z));
     Print (GPS_ (Fix.lat f) (Fix.lon f))].
Proof.
  destruct (timezone_at w (Fix.lat f) (Fix.lon f)) as [name|] eqn:T;
    [| rewrite (resolve_and_push_no_zone w f T); discriminate].
  destruct (zones w name) as [zone|] eqn:Z;
    [| rewrite (resolve_and_push_unknown_zone w f T Z); discriminate].
  rewrite (resolve_and_push_zone w f T Z). exists zone.
  unfold bind, call, print, emit, trace, value.
  destruct (on_setTime (controller w) _ _) as [[]|?|];
    [destruct (on_setLocation (controller w) _ _) as [[]|?|] | |];
    simpl; try discriminate.
  reflexivity.
Qed.

(** [synchronise] by the outcome of the wait for a fix. *)
Lemma synchronise_eq w :
  synchronise w =
  let acq := wait_for_fix (nmea w) default_hdop in
  match value acq with
  | Emitted f =>
      (reset_input_buffer :: trace acq
         ++ trace (bind (resolve_and_push w f) (fun _ => verify w)),
       value (bind (resolve_and_push w f) (fun _ => verify w)))
  | Cancelled =>
      (reset_input_buffer :: trace acq ++ [Print Failed_to_acquire_a_fix],
       Raise AttributeError)
  | Blocked _ => (reset_input_buffer :: trace acq, Hang)
  end.
Proof.
  unfold synchronise. rewrite call_wait_for_fix_eq.
  cbv zeta. destruct (value (wait_for_fix (nmea w) default_hdop)) as [f| |st];
    unfold bind at 1 2; simpl; try reflexivity.
  destruct (bind (resolve_and_push w f) (fun _ => verify w)); reflexivity.
Qed.

(** The run once the ports are open and Identify has returned. *)
Lemma run_after_identify w ports :
  ports_open w ports ->
  value (identify w) = Ok tt ->
  trace (set_telescope_from_gps w ports) =
    Opened (gps ports) :: Opened (telescope ports) ::
    trace (identify w) ++ trace (synchronise w) ++
    closing (value (synchronise w))
            [Closed (telescope ports); Closed (gps ports)] /\
  value (set_telescope_from_gps w ports) = value (synchronise w).
Proof.
  intros [G T] I. unfold set_telescope_from_gps.
  rewrite (with_Serial_open _ _ _ G), (with_Serial_open _ _ _ T).
  rewrite (bind_Ok _ _ I). simpl.
  split; [| reflexivity].
  rewrite <- !app_assoc.
  destruct (value (synchronise w)); reflexivity.
Qed.

(** Every event of a run that is a write to the controller belongs to
    [resolve_and_push] on the fix that was acquired. *)
Lemma run_events w ports ev :
  In ev (trace (set_telescope_from_gps w ports)) ->
  is_write ev = false \/
  exists f, value (wait_for_fix (nmea w) default_hdop) = Emitted f /\
            In ev (trace (resolve_and_push w f)).
Proof.
  unfold set_telescope_from_gps. intros H.
  apply In_trace_with_Serial in H. destruct H as [-> | [-> | H]]; auto.
  apply In_trace_with_Serial in H. destruct H as [-> | [-> | H]]; auto.
  apply In_trace_bind in H. destruct H as [H | (_ & _ & H)].
  { left. exact (identify_no_write w _ H). }
  rewrite synchronise_eq in H. cbv zeta in H.
  pose proof (@wait_loop_prints initial (nmea w) ev) as P.
  fold (wait_for_fix (nmea w) default_hdop) in P.
  destruct (value (wait_for_fix (nmea w) default_hdop)) as [f| |st] eqn:V;
    simpl in H; destruct H as [<- | H]; auto.
  - apply in_app_or in H. destruct H as [H | H].
    + destruct (P H) as [l ->]. auto.
    + apply In_trace_bind in H. destruct H as [H | (_ & _ & H)].
      * right. exists f. auto.
      * left. exact (verify_no_write w _ H).
  - apply in_app_or in H. destruct H as [H | [<- | []]]; auto.
    destruct (P H) as [l ->]. auto.
  - destruct (P H) as [l ->]. auto.
Qed.

Lemma run_value_Ok w ports :
  value (set_telescope_from_gps w ports) = Ok tt ->
  value (synchronise w) = Ok tt.
Proof.
  unfold set_telescope_from_gps. intros H.
  apply value_with_Serial_not_Ok in H.
  apply value_with_Serial_not_Ok in H.
  rewrite bind_unfold in H.
  destruct (value (identify w)); try discriminate. exact H.
Qed.

Lemma identify_fails w ex :
  is_Exception ex = true ->
  identification_fails w ex ->
  value (identify w) = Ok tt /\
  exists pre, trace (identify w) = pre ++ [Print (Exception_occurred ex)].
Proof.
  intros E [M | [(m & M & N & ->) | (m & name & M & N & V)]];
    unfold identify, to_NexstarModel, bind, call, print, emit, ret, raise;
    rewrite M; try rewrite N; try rewrite V; simpl; try rewrite E; simpl;
    split; try reflexivity.
  - exists [Sent getModel]. reflexivity.
  - exists [Sent getModel]. reflexivity.
  - exists [Sent getModel; Print (NexStar_Model name); Sent getVersion].
    reflexivity.
Qed.

(** When a read-back raises, the request that failed is the last event
    of [verify]. *)
Lemma verify_Raise w e :
  value (verify w) = Raise e ->
  exists pre r,
    trace (verify w) = pre ++ [Sent r] /\
    (r = getLocation \/ r = getTime \/ r = getPosition).
Proof.
  unfold verify, bind, call, print, emit, value, trace.
  destruct (on_getLocation (controller w)) as [loc|?|]; simpl;
    [| intros _; exists [], getLocation; auto | discriminate].
  destruct (on_getTime (controller w)) as [t|?|]; simpl;
    [| intros _;
       exists [Sent getLocation; Print (Set_telescope_location loc)], getTime;
       auto
     | discriminate].
  destruct (on_getPosition (controller w)) as [pos|?|]; simpl;
    [discriminate | | discriminate].
  intros _.
  exists [Sent getLocation; Print (Set_telescope_location loc);
          Sent getTime; Print (Set_telescope_time t)], getPosition.
  auto.
Qed.

(** ** The synchronisation run: the claims *)

(** C3.  What the run does when [wait_for_fix] returns [None]: it prints
    the failure and goes on to line 131, where [fix.lat] raises
    [AttributeError]; the run ends with that exception.  Nothing was
    written to the controller. *)
Theorem C3_no_fix_raises_AttributeError (w : World) (ports : PortIDs) :
  ports_open w ports ->
  value (identify w) = Ok tt ->
  value (wait_for_fix (nmea w) default_hdop) = Cancelled ->
  value (set_telescope_from_gps w ports) = Raise AttributeError /\
  In (Print Failed_to_acquire_a_fix) (trace (set_telescope_from_gps w ports)) /\
  no_write (trace (set_telescope_from_gps w ports)).
Proof.
  intros P I C.
  destruct (run_after_identify P I) as [T V].
  assert (S : synchronise w =
              (reset_input_buffer
                 :: trace (wait_for_fix (nmea w) default_hdop)
                 ++ [Print Failed_to_acquire_a_fix],
               Raise AttributeError)).
  { rewrite synchronise_eq. cbv zeta. rewrite C. reflexivity. }
  split; [rewrite V, S; reflexivity | split].
  - rewrite T, S. simpl. right. right.
    apply in_or_app. right. right.
    apply in_or_app. left. apply in_or_app. right. left. reflexivity.
  - intros ev H. destruct (run_events _ _ _ H) as [N | (f & E & _)];
      [exact N | congruence].
Qed.

(** C3 on a run interrupted during the first read. *)
Lemma C3_no_fix_witness :
  value (set_telescope_from_gps (Scenario.world Scenario.healthy [Interrupt])
                                Scenario.ports)
  = Raise AttributeError.
Proof.
  apply (@C3_no_fix_raises_AttributeError
           (Scenario.world Scenario.healthy [Interrupt]) Scenario.ports).
  - split; reflexivity.
  - reflexivity.
  - reflexivity.
Defined.

(** C4.  When the timezone index has no zone for the position of the fix,
    [pytz.timezone(None)] raises [UnknownTimeZoneError]: nothing is written
    to the controller (no [setTime], so no time in UTC or in any other
    zone, and no [setLocation]), the run does not complete, and once the
    ports are open and Identify has returned it ends with that exception. *)
Theorem C4_no_timezone_aborts_before_writes (w : World) (ports : PortIDs)
        (f : Fix.t) :
  value (wait_for_fix (nmea w) default_hdop) = Emitted f ->
  timezone_at w (Fix.lat f) (Fix.lon f) = None ->
  no_write (trace (set_telescope_from_gps w ports)) /\
  value (set_telescope_from_gps w ports) <> Ok tt /\
  (ports_open w ports -> value (identify w) = Ok tt ->
   value (set_telescope_from_gps w ports) = Raise UnknownTimeZoneError).
Proof.
  intros E Z.
  assert (S : value (synchronise w) = Raise UnknownTimeZoneError).
  { rewrite synchronise_eq. cbv zeta. rewrite E.
    rewrite (resolve_and_push_no_zone w f Z). reflexivity. }
  split; [| split].
  - intros ev H. destruct (run_events _ _ _ H) as [N | (g & G & I)];
      [exact N |].
    rewrite E in G. injection G as <-.
    rewrite (resolve_and_push_no_zone w f Z) in I. destruct I.
  - intros H. apply run_value_Ok in H. congruence.
  - intros P I. destruct (run_after_identify P I) as [_ V]. congruence.
Qed.

(** C4 on a fix in the Pacific. *)
Lemma C4_no_timezone_witness :
  value (set_telescope_from_gps
           (Scenario.world Scenario.healthy
              [Read Scenario.gga_ocean; Read (Scenario.rmc "A")])
           Scenario.ports)
  = Raise UnknownTimeZoneError.
Proof.
  refine (proj2 (proj2 (@C4_no_timezone_aborts_before_writes
                          (Scenario.world Scenario.healthy
                             [Read Scenario.gga_ocean; Read (Scenario.rmc "A")])
                          Scenario.ports
                          (Fix.Make (-30) (-140)
                                    (datetime.Date 2024 6 1)
                                    (datetime.Time 17 30 0 0))
                          _ _)) _ _).
  - reflexivity.
  - reflexivity.
  - split; reflexivity.
  - reflexivity.
Defined.

(** C5.  In every run, the flag of every [setTime] sent to the controller
    is 1 when the daylight-saving offset of the local time sent with it is
    greater than 0 seconds and 0 otherwise; the local time is the fix's
    instant in the zone found for its position.  The UTC offset does not
    decide it: in June, Los Angeles and Phoenix are both 7 hours behind
    UTC, and the flag is 1 for the first and 0 for the second. *)
Theorem C5_dst_flag_from_dst_offset (w : World) (ports : PortIDs) :
  (forall ts flag,
     In (Sent (setTime ts flag)) (trace (set_telescope_from_gps w ports)) ->
     (flag = 1%Z \/ flag = 0%Z) /\
     (flag = 1%Z <-> (0 < datetime.dst ts)%Z) /\
     exists f name zone,
       value (wait_for_fix (nmea w) default_hdop) = Emitted f /\
       timezone_at w (Fix.lat f) (Fix.lon f) = Some name /\
       zones w name = Some zone /\
       ts = local_time f zone) /\
  (exists ts1 ts2,
     In (Sent (setTime ts1 1))
        (trace (set_telescope_from_gps
                  (Scenario.world Scenario.healthy Scenario.good_sky)
                  Scenario.ports)) /\
     In (Sent (setTime ts2 0))
        (trace (set_telescope_from_gps
                  (Scenario.world Scenario.healthy
                     [Read Scenario.gga_Phoenix; Read (Scenario.rmc "A")])
                  Scenario.ports)) /\
     datetime.utcoffset (datetime.tz ts1) = datetime.utcoffset (datetime.tz ts2)).
Proof.
  split.
  - intros ts flag H.
    destruct (run_events _ _ _ H) as [N | (f & E & I)]; [discriminate |].
    destruct (resolve_and_push_events _ _ _ I)
      as (name & zone & T & Z & [K | [K | [l K]]]); try discriminate.
    injection K as -> ->.
    unfold dst_flag.
    destruct (0 <? datetime.dst (local_time f zone))%Z eqn:D.
    + apply Z.ltb_lt in D. repeat split; auto.
      exists f, name, zone. auto.
    + apply Z.ltb_ge in D. repeat split; auto; try (intros; lia); try discriminate.
      exists f, name, zone. auto.
  - exists (datetime.DateTime (datetime.Date 2024 6 1) (datetime.Time 17 30 0 0)
                              (datetime.Offsets (-25200) 3600)),
           (datetime.DateTime (datetime.Date 2024 6 1) (datetime.Time 17 30 0 0)
                              (datetime.Offsets (-25200) 0)).
    split; [| split; [| reflexivity]]; vm_compute; tauto.
Qed.

(** C5 on the run at Los Angeles on 2024-06-01 17:30:00 UTC. *)
Lemma C5_dst_flag_witness :
  (1 = 1 \/ 1 = 0)%Z /\
  (1%Z = 1%Z <->
   (0 < datetime.dst
          (datetime.DateTime (datetime.Date 2024 6 1)
                             (datetime.Time 17 30 0 0)
                             (datetime.Offsets (-25200) 3600)))%Z).
Proof.
  assert (H : In (Sent (setTime
                          (datetime.DateTime (datetime.Date 2024 6 1)
                                             (datetime.Time 17 30 0 0)
                                             (datetime.Offsets (-25200) 3600))
                          1))
                 (trace (set_telescope_from_gps
                           (Scenario.world Scenario.healthy Scenario.good_sky)
                           Scenario.ports))).
  { vm_compute. tauto. }
  destruct (proj1 (C5_dst_flag_from_dst_offset
                     (Scenario.world Scenario.healthy Scenario.good_sky)
                     Scenario.ports) _ _ H) as (A & B & _).
  exact (conj A B).
Defined.

(** C8.  When the Identify step fails with an exception [ex] (one derived
    from [Exception]), the handler prints it and the step returns: the run
    goes on with lines 123-157 (input reset, fix acquisition and the
    remaining steps), which make up the rest of its trace and decide its
    outcome. *)
Theorem C8_identify_failure_is_not_fatal (w : World) (ports : PortIDs)
        (ex : PyExc) :
  is_Exception ex = true ->
  identification_fails w ex ->
  value (identify w) = Ok tt /\
  (exists pre, trace (identify w) = pre ++ [Print (Exception_occurred ex)]) /\
  (ports_open w ports ->
   trace (set_telescope_from_gps w ports) =
     Opened (gps ports) :: Opened (telescope ports) ::
     trace (identify w) ++ trace (synchronise w) ++
     closing (value (synchronise w))
             [Closed (telescope ports); Closed (gps ports)] /\
   value (set_telescope_from_gps w ports) = value (synchronise w)).
Proof.
  intros E F. destruct (@identify_fails w ex E F) as [V T].
  split; [exact V | split; [exact T |]].
  intros P. exact (@run_after_identify w ports P V).
Qed.

(** C8 on a controller that does not answer [getModel]: the run completes,
    time and location are pushed. *)
Lemma C8_identify_failure_witness :
  value (set_telescope_from_gps
           (Scenario.world Scenario.unidentified Scenario.good_sky)
           Scenario.ports) = Ok tt /\
  In (Sent (setLocation 34 (-118)))
     (trace (set_telescope_from_gps
               (Scenario.world Scenario.unidentified Scenario.good_sky)
               Scenario.ports)).
Proof.
  assert (E : is_Exception NexstarProtocolError = true) by reflexivity.
  assert (F : identification_fails
                (Scenario.world Scenario.unidentified Scenario.good_sky)
                NexstarProtocolError) by (left; reflexivity).
  assert (P : ports_open (Scenario.world Scenario.unidentified Scenario.good_sky)
                         Scenario.ports) by (split; reflexivity).
  destruct (@C8_identify_failure_is_not_fatal
              (Scenario.world Scenario.unidentified Scenario.good_sky)
              Scenario.ports NexstarProtocolError E F) as (_ & _ & R).
  destruct (R P) as [T V]. split.
  - rewrite V. reflexivity.
  - rewrite T. vm_compute. tauto.
Defined.

(** C9 as stated fails: with a controller whose [getLocation] raises, the
    writes are sent, the exception raised by the read-back ends the run,
    nothing reports it and the other two read-backs are not made. *)
Lemma C9_readback_error_is_fatal :
  on_getLocation Scenario.no_readback = Raise NexstarProtocolError /\
  In (Sent (setLocation 34 (-118))) (trace Scenario.readback_failure) /\
  value Scenario.readback_failure = Raise NexstarProtocolError /\
  value Scenario.readback_failure <> Ok tt /\
  ~ In (Print (Exception_occurred NexstarProtocolError))
       (trace Scenario.readback_failure) /\
  ~ In (Sent getTime) (trace Scenario.readback_failure) /\
  ~ In (Sent getPosition) (trace Scenario.readback_failure).
Proof.
  vm_compute.
  repeat split; try tauto; try discriminate;
    intros H; repeat (destruct H as [H | H]; [discriminate |]); exact H.
Qed.

(** C9, amended.  When a read-back of the Verify step raises [e], the
    exception leaves the function: the run ends with [e].  By then [setTime]
    and [setLocation] have been sent; what follows them in the trace is the
    four prints, the read-backs up to the request that failed, and the
    closing of the two ports, none of which writes to the controller. *)
Theorem C9_readback_error_ends_run (w : World) (ports : PortIDs)
        (f : Fix.t) (e : PyExc) :
  ports_open w ports ->
  value (identify w) = Ok tt ->
  value (wait_for_fix (nmea w) default_hdop) = Emitted f ->
  value (resolve_and_push w f) = Ok tt ->
  value (verify w) = Raise e ->
  value (set_telescope_from_gps w ports) = Raise e /\
  exists before ts flag prints readbacks r,
    trace (set_telescope_from_gps w ports) =
      before
      ++ [Sent (setTime ts flag); Sent (setLocation (Fix.lat f) (Fix.lon f))]
      ++ prints ++ readbacks ++ [Sent r]
      ++ [Closed (telescope ports); Closed (gps ports)] /\
    (r = getLocation \/ r = getTime \/ r = getPosition) /\
    (forall ev, In ev prints -> exists l, ev = Print l) /\
    no_write (prints ++ readbacks ++ [Sent r]
              ++ [Closed (telescope ports); Closed (gps ports)]).
Proof.
  intros P I E R V.
  destruct (@run_after_identify w ports P I) as [T VR].
  destruct (@resolve_and_push_Ok w f R) as [zone TR].
  destruct (@verify_Raise w e V) as (pre & r & TV & Hr).
  assert (B : bind (resolve_and_push w f) (fun _ => verify w) =
              (trace (resolve_and_push w f) ++ trace (verify w), Raise e)).
  { rewrite (@bind_Ok _ _ _ _ tt R), V. reflexivity. }
  assert (S : synchronise w =
              (reset_input_buffer
                 :: trace (wait_for_fix (nmea w) default_hdop)
                 ++ trace (resolve_and_push w f) ++ trace (verify w),
               Raise e)).
  { rewrite synchronise_eq. cbv zeta. rewrite E, B. reflexivity. }
  split; [rewrite VR, S; reflexivity |].
  exists (Opened (gps ports) :: Opened (telescope ports)
          :: trace (identify w)
          ++ reset_input_buffer
          :: trace (wait_for_fix (nmea w) default_hdop)),
    (local_time f zone), (dst_flag (local_time f zone)),
    (skipn 2 (trace (resolve_and_push w f))), pre, r.
  assert (NV : no_write (trace (verify w))) by apply verify_no_write.
  rewrite TV in NV.
  split; [| split; [exact Hr | split]].
  - rewrite T, S, TR, TV. simpl. rewrite <- !app_assoc. simpl.
    rewrite <- !app_assoc. reflexivity.
  - rewrite TR. simpl. intros ev H.
    repeat (destruct H as [H | H]; [eauto |]). destruct H.
  - rewrite TR. simpl. intros ev H.
    repeat (destruct H as [<- | H]; [reflexivity |]).
    apply in_app_or in H. destruct H as [H | H].
    + apply NV, in_or_app. left. exact H.
    + destruct H as [<- | H].
      * apply NV, in_or_app. right. left. reflexivity.
      * repeat (destruct H as [<- | H]; [reflexivity |]). destruct H.
Qed.

(** C9 amended, on the controller whose [getLocation] raises. *)
Lemma C9_readback_error_witness :
  value (set_telescope_from_gps
           (Scenario.world Scenario.no_readback Scenario.good_sky)
           Scenario.ports) = Raise NexstarProtocolError.
Proof.
  refine (proj1 (@C9_readback_error_ends_run
                   (Scenario.world Scenario.no_readback Scenario.good_sky)
                   Scenario.ports
                   (Fix.Make 34 (-118) (datetime.Date 2024 6 1)
                             (datetime.Time 17 30 0 0))
                   NexstarProtocolError _ _ _ _ _)).
  - split; reflexivity.
  - reflexivity.
  - reflexivity.
  - reflexivity.
  - reflexivity.
Defined.

(** ** The fix accumulator: further properties *)

Lemma loop_body_invalid_date st msg :
  invalid_date msg -> value (loop_body st msg) = st.
Proof.
  intros [R S]. rewrite value_loop_body, R. simpl.
  apply String.eqb_neq in S. rewrite S. reflexivity.
Qed.

Lemma loop_body_rejected st msg : rejected msg -> value (loop_body st msg) = st.
Proof.
  intros [P | [I | O]].
  - exact (loop_body_poor st P).
  - exact (loop_body_invalid_date st I).
  - rewrite (loop_body_other_kind st O). reflexivity.
Qed.

Lemma qualifyingb_true msg : qualifyingb msg = true <-> qualifying msg.
Proof.
  unfold qualifyingb, qualifying.
  rewrite andb_true_iff, String.eqb_eq, Qlt_bool_lt. reflexivity.
Qed.

Lemma valid_dateb_true msg : valid_dateb msg = true <-> valid_date msg.
Proof.
  unfold valid_dateb, valid_date.
  rewrite andb_true_iff, !String.eqb_eq. reflexivity.
Qed.

Lemma consume_app st msgs msg :
  consume st (msgs ++ [msg]) = value (loop_body (consume st msgs) msg).
Proof. unfold consume. rewrite fold_left_app. reflexivity. Qed.

Lemma latest_app test msgs msg :
  latest test (msgs ++ [msg]) =
  if test msg then Some msg else latest test msgs.
Proof. unfold latest. rewrite rev_app_distr. reflexivity. Qed.

(** The position variables hold the fields of the latest qualifying
    report, the date variable the date of the latest valid date report. *)
Lemma consume_latest st msgs :
  let st' := consume st msgs in
  (Accumulator.lat st' =
   match latest qualifyingb msgs with
   | Some g => Some (NMEAMessage.lat g)
   | None => Accumulator.lat st
   end) /\
  (Accumulator.lon st' =
   match latest qualifyingb msgs with
   | Some g => Some (NMEAMessage.lon g)
   | None => Accumulator.lon st
   end) /\
  (Accumulator.time st' =
   match latest qualifyingb msgs with
   | Some g => Some (NMEAMessage.time g)
   | None => Accumulator.time st
   end) /\
  (Accumulator.date st' =
   match latest valid_dateb msgs with
   | Some r => Some (NMEAMessage.date r)
   | None => Accumulator.date st
   end).
Proof.
  cbv zeta. induction msgs as [|msg msgs IH] using rev_ind.
  - repeat split.
  - destruct IH as (A & B & C & D).
    rewrite consume_app, !latest_app, value_loop_body.
    unfold qualifyingb, valid_dateb.
    destruct (String.eqb (NMEAMessage.msgID msg) "GGA") eqn:G.
    + apply String.eqb_eq in G. rewrite G. simpl.
      destruct (Qlt_bool (NMEAMessage.HDOP msg) 3); simpl; auto.
    + simpl. destruct (String.eqb (NMEAMessage.msgID msg) "RMC"); simpl; auto.
      destruct (String.eqb (NMEAMessage.status msg) "A"); simpl; auto.
Qed.

Lemma wait_loop_Blocked_consume st msgs st1 :
  value (wait_loop st (map Read msgs)) = Blocked st1 -> st1 = consume st msgs.
Proof.
  revert st. induction msgs as [|msg rest IH]; intros st K.
  - injection K as <-. reflexivity.
  - cbn [map] in K. rewrite wait_loop_Read in K.
    destruct (all_populated (value (loop_body st msg))); [discriminate |].
    exact (IH _ K).
Qed.

Lemma latest_Some test msgs g :
  latest test msgs = Some g -> test g = true.
Proof. unfold latest. intros H. apply find_some in H. tauto. Qed.

(** Once the loop has returned or was interrupted, further reads change
    nothing. *)
Lemma wait_loop_done st reads more :
  (forall st1, value (wait_loop st reads) <> Blocked st1) ->
  wait_loop st (reads ++ more) = wait_loop st reads.
Proof.
  revert st. induction reads as [|[msg|] rest IH]; intros st N.
  - exfalso. exact (N st eq_refl).
  - rewrite <- app_comm_cons. cbn [wait_loop].
    rewrite wait_loop_Read in N.
    unfold and_then, value in *. destruct (loop_body st msg) as [l st'].
    simpl in *.
    destruct (all_populated st'); [reflexivity |].
    rewrite (IH _ N). reflexivity.
  - reflexivity.
Qed.

(** Reading on from where the loop is blocked, with the trace. *)
Lemma wait_loop_resume st reads st1 more :
  value (wait_loop st reads) = Blocked st1 ->
  wait_loop st (reads ++ more) =
  (trace (wait_loop st reads) ++ trace (wait_loop st1 more),
   value (wait_loop st1 more)).
Proof.
  revert st. induction reads as [|[msg|] rest IH]; intros st K.
  - injection K as <-. simpl. destruct (wait_loop st more); reflexivity.
  - rewrite <- app_comm_cons. rewrite wait_loop_Read in K. cbn [wait_loop].
    unfold and_then, trace, value in *.
    destruct (loop_body st msg) as [l st']. simpl in *.
    destruct (all_populated st'); [discriminate |].
    rewrite (IH _ K).
    destruct (wait_loop st' rest); simpl. rewrite app_assoc. reflexivity.
  - discriminate.
Qed.

(** X1.  Records the loop rejects, in any mix - position reports with HDOP
    3 or more, date reports whose status is not "A", sentences of other
    kinds - leave the four variables as they were, and after them the loop
    is still waiting: an invalid date report never sets the date. *)
Theorem rejected_records_leave_loop_waiting (st : Accumulator.t)
        (msgs : list NMEAMessage.t) :
  Forall rejected msgs ->
  all_populated st = None ->
  consume st msgs = st /\
  value (wait_loop st (map Read msgs)) = Blocked st.
Proof.
  intros F N. induction F as [|msg rest R _ IH].
  - split; reflexivity.
  - destruct IH as [C B]. split.
    + unfold consume in *. simpl. rewrite (loop_body_rejected st R). exact C.
    + cbn [map]. rewrite wait_loop_Read, (loop_body_rejected st R), N. exact B.
Qed.

Lemma rejected_records_witness :
  value (wait_for_fix [Read (Scenario.gga 4); Read (Scenario.rmc "V");
                       Read Scenario.gsv; Read (Scenario.rmc "")] 3)
  = Blocked initial.
Proof.
  refine (proj2 (@rejected_records_leave_loop_waiting initial
                   [Scenario.gga 4; Scenario.rmc "V"; Scenario.gsv;
                    Scenario.rmc ""] _ _)).
  - repeat apply Forall_cons; try apply Forall_nil;
      unfold rejected, poor, invalid_date, other_kind; simpl.
    + left. split; [reflexivity | discriminate].
    + right. left. split; [reflexivity | discriminate].
    + right. right. split; discriminate.
    + right. left. split; [reflexivity | discriminate].
  - reflexivity.
Defined.

(** X2.  Where the fields of the returned [Fix] come from.  The loop
    returns on the first record [msg] after which both a qualifying position
    report and a valid date report have been read.  Latitude, longitude and
    time of day are those of the latest qualifying position report read up
    to [msg], the date is that of the latest valid date report read up to
    [msg]; one of the two is [msg] itself, and before [msg] one of the two
    kinds had not been seen.  The time of day of a date report is never
    used. *)
Theorem fix_fields_come_from_latest_reports (msgs : list NMEAMessage.t)
        (hdop : Z) (f : Fix.t) :
  value (wait_for_fix (map Read msgs) hdop) = Emitted f ->
  exists pre msg post g r,
    msgs = pre ++ msg :: post /\
    latest qualifyingb (pre ++ [msg]) = Some g /\
    latest valid_dateb (pre ++ [msg]) = Some r /\
    qualifying g /\ valid_date r /\
    f = Fix.Make (NMEAMessage.lat g) (NMEAMessage.lon g)
                 (NMEAMessage.date r) (NMEAMessage.time g) /\
    (msg = g \/ msg = r) /\
    (latest qualifyingb pre = None \/ latest valid_dateb pre = None).
Proof.
  unfold wait_for_fix. intros K.
  destruct (@wait_loop_emitted_at initial msgs f eq_refl K)
    as (pre & msg & post & st1 & -> & B & N1 & F).
  apply wait_loop_Blocked_consume in B. subst st1.
  rewrite <- consume_app in F.
  destruct (consume_latest initial (pre ++ [msg])) as (A1 & A2 & A3 & A4).
  apply all_populated_Some in F. rewrite F in A1, A2, A3, A4. simpl in *.
  destruct (latest qualifyingb (pre ++ [msg])) as [g|] eqn:Lg;
    [| discriminate A1].
  destruct (latest valid_dateb (pre ++ [msg])) as [r|] eqn:Lr;
    [| discriminate A4].
  exists pre, msg, post, g, r.
  assert (W : latest qualifyingb pre = None \/ latest valid_dateb pre = None).
  { destruct (consume_latest initial pre) as (C1 & C2 & C3 & C4).
    unfold all_populated in N1. rewrite C1, C2, C3, C4 in N1.
    destruct (latest qualifyingb pre); [| auto].
    destruct (latest valid_dateb pre); [| auto].
    discriminate N1. }
  split; [reflexivity |]. split; [exact Lg |]. split; [exact Lr |].
  split; [apply qualifyingb_true; exact (latest_Some _ _ Lg) |].
  split; [apply valid_dateb_true; exact (latest_Some _ _ Lr) |].
  split; [| split; [| exact W]].
  - destruct f as [la lo d t]. simpl in *. congruence.
  - rewrite latest_app in Lg, Lr.
    destruct W as [W | W]; rewrite W in *.
    + destruct (qualifyingb msg); [left; congruence | discriminate].
    + destruct (valid_dateb msg); [right; congruence | discriminate].
Qed.

Lemma fix_fields_witness :
  exists pre msg post g r,
    [Scenario.gga (3 # 2); Scenario.gga_Phoenix; Scenario.rmc "V";
     Scenario.rmc "A"; Scenario.gsv] = pre ++ msg :: post /\
    latest qualifyingb (pre ++ [msg]) = Some g /\
    latest valid_dateb (pre ++ [msg]) = Some r /\
    qualifying g /\ valid_date r /\
    Fix.Make (669 # 20) (-11207 # 100) (datetime.Date 2024 6 1)
             (datetime.Time 17 30 0 0)
    = Fix.Make (NMEAMessage.lat g) (NMEAMessage.lon g)
               (NMEAMessage.date r) (NMEAMessage.time g) /\
    (msg = g \/ msg = r) /\
    (latest qualifyingb pre = None \/ latest valid_dateb pre = None).
Proof.
  apply (@fix_fields_come_from_latest_reports
           [Scenario.gga (3 # 2); Scenario.gga_Phoenix; Scenario.rmc "V";
            Scenario.rmc "A"; Scenario.gsv] 3).
  reflexivity.
Defined.

(** X3.  Once [wait_for_fix] has returned a [Fix] it reads nothing more:
    whatever the reader would deliver next - records or an interrupt - the
    result and the printed lines are the same. *)
Theorem wait_for_fix_stops_reading (reads more : list ReadEvent) (hdop : Z)
        (f : Fix.t) :
  value (wait_for_fix reads hdop) = Emitted f ->
  wait_for_fix (reads ++ more) hdop = wait_for_fix reads hdop.
Proof.
  unfold wait_for_fix. intros K. apply wait_loop_done.
  intros st1 B. congruence.
Qed.

Lemma wait_for_fix_stops_reading_witness :
  wait_for_fix (Scenario.good_sky ++ [Read (Scenario.gga 1); Interrupt]) 3
  = wait_for_fix Scenario.good_sky 3.
Proof.
  apply (@wait_for_fix_stops_reading Scenario.good_sky
           [Read (Scenario.gga 1); Interrupt] 3
           (Fix.Make 34 (-118) (datetime.Date 2024 6 1)
                     (datetime.Time 17 30 0 0))).
  reflexivity.
Defined.

(** X4.  An interrupt while the loop is waiting makes [wait_for_fix] return
    [None], whatever the variables hold by then: a position without a date,
    or a date without a position, is dropped.  Nothing is printed for the
    interrupt, and the reads after it are not made. *)
Theorem interrupt_drops_partial_state (reads more : list ReadEvent) (hdop : Z)
        (st : Accumulator.t) :
  value (wait_for_fix reads hdop) = Blocked st ->
  wait_for_fix (reads ++ Interrupt :: more) hdop =
  (trace (wait_for_fix reads hdop), Cancelled).
Proof.
  unfold wait_for_fix. intros K.
  rewrite (@wait_loop_resume _ _ st (Interrupt :: more) K). simpl.
  rewrite app_nil_r. reflexivity.
Qed.

Lemma interrupt_drops_partial_state_witness :
  value (wait_for_fix ([Read (Scenario.gga (3 # 2))]
                       ++ Interrupt :: [Read (Scenario.rmc "A")]) 3)
  = Cancelled.
Proof.
  rewrite (@interrupt_drops_partial_state [Read (Scenario.gga (3 # 2))]
             [Read (Scenario.rmc "A")] 3
             (Accumulator.Make (Some 34) (Some (-118)) None
                               (Some (datetime.Time 17 30 0 0)))).
  - reflexivity.
  - reflexivity.
Defined.

(** ** The synchronisation run: further properties *)

Lemma value_with_Serial_Ok_open {A} w port (body : Run A) a :
  value (with_Serial w port body) = Ok a -> Serial w port = None.
Proof.
  unfold with_Serial. destruct (Serial w port); [discriminate | reflexivity].
Qed.

Lemma identify_events w ev :
  In ev (trace (identify w)) ->
  (exists l, ev = Print l) \/ ev = Sent getModel \/ ev = Sent getVersion.
Proof.
  unfold identify, to_NexstarModel, try_except_Exception, bind,
    call, print, emit, ret, raise, trace.
  run_cases; intros H;
    repeat (destruct H as [H | H]; [subst; eauto |]); destruct H.
Qed.

Lemma verify_events w ev :
  In ev (trace (verify w)) ->
  (exists l, ev = Print l) \/ (exists r, ev = Sent r).
Proof.
  unfold verify, bind, call, print, emit, trace.
  run_cases; intros H;
    repeat (destruct H as [H | H]; [subst; eauto |]); destruct H.
Qed.

Lemma synchronise_events w ev :
  In ev (trace (synchronise w)) ->
  ev = reset_input_buffer \/ (exists l, ev = Print l) \/ (exists r, ev = Sent r).
Proof.
  rewrite synchronise_eq. cbv zeta.
  pose proof (@wait_loop_prints initial (nmea w) ev) as P.
  fold (wait_for_fix (nmea w) default_hdop) in P.
  destruct (value (wait_for_fix (nmea w) default_hdop)) as [f| |st];
    simpl; intros [K | H]; auto.
  - apply in_app_or in H. destruct H as [H | H]; [auto |].
    apply In_trace_bind in H. destruct H as [H | (_ & _ & H)].
    + destruct (resolve_and_push_events _ _ _ H)
        as (name & zone & _ & _ & [K | [K | K]]); eauto.
    + destruct (verify_events _ _ H); auto.
  - apply in_app_or in H. destruct H as [H | [K | []]]; eauto.
Qed.

Lemma body_no_port_event w ev :
  In ev (trace (bind (identify w) (fun _ => synchronise w))) ->
  is_port_event ev = false.
Proof.
  intros H. apply In_trace_bind in H. destruct H as [H | (_ & _ & H)].
  - destruct (identify_events _ _ H) as [[l ->] | [-> | ->]]; reflexivity.
  - destruct (synchronise_events _ _ H) as [-> | [[l ->] | [r ->]]];
      reflexivity.
Qed.

(** The run once both ports are open. *)
Lemma run_ports_open w ports :
  ports_open w ports ->
  set_telescope_from_gps w ports =
  (Opened (gps ports) :: Opened (telescope ports) ::
   trace (bind (identify w) (fun _ => synchronise w)) ++
   closing (value (bind (identify w) (fun _ => synchronise w)))
           [Closed (telescope ports); Closed (gps ports)],
   value (bind (identify w) (fun _ => synchronise w))).
Proof.
  intros [G T]. unfold set_telescope_from_gps.
  rewrite (with_Serial_open _ _ _ G), (with_Serial_open _ _ _ T). simpl.
  rewrite <- !app_assoc.
  destruct (value (bind (identify w) (fun _ => synchronise w))); reflexivity.
Qed.

(** The run once both ports are open and Identify has returned. *)
Lemma run_identified w ports :
  ports_open w ports ->
  value (identify w) = Ok tt ->
  set_telescope_from_gps w ports =
  (Opened (gps ports) :: Opened (telescope ports) ::
   trace (identify w) ++ trace (synchronise w) ++
   closing (value (synchronise w))
           [Closed (telescope ports); Closed (gps ports)],
   value (synchronise w)).
Proof.
  intros P I. destruct (run_after_identify P I) as [T V].
  rewrite <- T, <- V. destruct (set_telescope_from_gps w ports); reflexivity.
Qed.

(** [synchronise] when the fix is acquired and its zone is found. *)
Lemma synchronise_pushes w f name zone :
  value (wait_for_fix (nmea w) default_hdop) = Emitted f ->
  timezone_at w (Fix.lat f) (Fix.lon f) = Some name ->
  zones w name = Some zone ->
  synchronise w =
  match on_setTime (controller w) (local_time f zone)
                   (dst_flag (local_time f zone)) with
  | Ok _ =>
      match on_setLocation (controller w) (Fix.lat f) (Fix.lon f) with
      | Ok _ =>
          (reset_input_buffer :: trace (wait_for_fix (nmea w) default_hdop)
             ++ push_time f zone :: push_location f :: report f zone
             ++ trace (verify w),
           value (verify w))
      | Raise e =>
          (reset_input_buffer :: trace (wait_for_fix (nmea w) default_hdop)
             ++ [push_time f zone; push_location f],
           Raise e)
      | Hang =>
          (reset_input_buffer :: trace (wait_for_fix (nmea w) default_hdop)
             ++ [push_time f zone; push_location f],
           Hang)
      end
  | Raise e =>
      (reset_input_buffer :: trace (wait_for_fix (nmea w) default_hdop)
         ++ [push_time f zone],
       Raise e)
  | Hang =>
      (reset_input_buffer :: trace (wait_for_fix (nmea w) default_hdop)
         ++ [push_time f zone],
       Hang)
  end.
Proof.
  intros E T Z. rewrite synchronise_eq. cbv zeta. rewrite E.
  rewrite (resolve_and_push_zone w f T Z).
  unfold push_time, push_location, report.
  unfold bind at 2 3 4 5 6 7, call, print, emit.
  destruct (on_setTime (controller w) _ _) as [[]|e|];
    [destruct (on_setLocation (controller w) _ _) as [[]|e|] | |];
    simpl; try reflexivity.
  destruct (verify w) as [l r]. reflexivity.
Qed.

Lemma verify_answered w loc t pos :
  on_getLocation (controller w) = Ok loc ->
  on_getTime (controller w) = Ok t ->
  on_getPosition (controller w) = Ok pos ->
  verify w = (read_backs loc t pos, Ok tt).
Proof.
  intros L T P. unfold verify, bind, call, print, emit.
  rewrite L, T, P. reflexivity.
Qed.

Lemma verify_Ok w :
  value (verify w) = Ok tt ->
  exists loc t pos,
    on_getLocation (controller w) = Ok loc /\
    on_getTime (controller w) = Ok t /\
    on_getPosition (controller w) = Ok pos.
Proof.
  unfold verify, bind, call, print, emit, value.
  destruct (on_getLocation (controller w)) as [loc|?|]; simpl;
    try discriminate.
  destruct (on_getTime (controller w)) as [t|?|]; simpl; try discriminate.
  destruct (on_getPosition (controller w)) as [pos|?|]; simpl;
    try discriminate.
  intros _. exists loc, t, pos. auto.
Qed.

(** The trace and the outcome of a run in which nothing fails. *)
Lemma completes_run w ports f name zone loc t pos :
  ports_open w ports ->
  value (identify w) = Ok tt ->
  value (wait_for_fix (nmea w) default_hdop) = Emitted f ->
  timezone_at w (Fix.lat f) (Fix.lon f) = Some name ->
  zones w name = Some zone ->
  on_setTime (controller w) (local_time f zone)
             (dst_flag (local_time f zone)) = Ok tt ->
  on_setLocation (controller w) (Fix.lat f) (Fix.lon f) = Ok tt ->
  on_getLocation (controller w) = Ok loc ->
  on_getTime (controller w) = Ok t ->
  on_getPosition (controller w) = Ok pos ->
  set_telescope_from_gps w ports =
  (Opened (gps ports) :: Opened (telescope ports) ::
   trace (identify w) ++
   reset_input_buffer :: trace (wait_for_fix (nmea w) default_hdop) ++
   push_time f zone :: push_location f :: report f zone ++
   read_backs loc t pos ++
   [Closed (telescope ports); Closed (gps ports)],
   Ok tt).
Proof.
  intros P I E T Z ST SL L GT GP.
  rewrite (run_identified P I), (synchronise_pushes w E T Z), ST, SL.
  rewrite (verify_answered w L GT GP). simpl.
  rewrite <- !app_assoc. reflexivity.
Qed.

(** A run that returns has met all the conditions. *)
Lemma run_Ok_completes w ports :
  value (set_telescope_from_gps w ports) = Ok tt -> completes w ports.
Proof.
  intros H.
  assert (P : ports_open w ports).
  { unfold set_telescope_from_gps in H. split.
    - exact (value_with_Serial_Ok_open _ _ _ H).
    - apply value_with_Serial_not_Ok in H.
      exact (value_with_Serial_Ok_open _ _ _ H). }
  assert (I : value (identify w) = Ok tt).
  { unfold set_telescope_from_gps in H.
    do 2 apply value_with_Serial_not_Ok in H.
    rewrite bind_unfold in H.
    destruct (value (identify w)) as [[]|?|]; [reflexivity | |];
      discriminate H. }
  apply run_value_Ok in H.
  split; [exact P | split; [exact I |]].
  rewrite synchronise_eq in H. cbv zeta in H.
  destruct (value (wait_for_fix (nmea w) default_hdop)) as [f| |st] eqn:E;
    try discriminate H.
  simpl in H. rewrite bind_unfold in H.
  destruct (value (resolve_and_push w f)) as [[]|?|] eqn:R;
    try discriminate H.
  simpl in H.
  destruct (verify_Ok w H) as (loc & t & pos & L & GT & GP).
  destruct (timezone_at w (Fix.lat f) (Fix.lon f)) as [name|] eqn:T;
    [| rewrite (resolve_and_push_no_zone w f T) in R; discriminate R].
  destruct (zones w name) as [zone|] eqn:Z;
    [| rewrite (resolve_and_push_unknown_zone w f T Z) in R; discriminate R].
  exists f, name, zone, loc, t, pos.
  rewrite (resolve_and_push_zone w f T Z) in R.
  unfold bind, call, print, emit, value in R.
  destruct (on_setTime (controller w) _ _) as [[]|?|];
    [destruct (on_setLocation (controller w) _ _) as [[]|?|] | |];
    simpl in R; try discriminate R.
  repeat split; auto.
Qed.

(** X5.  When the GPS port does not open, the exception ends the run before
    anything else happens; when the telescope port does not open, the GPS
    port, already open, is closed again and the exception ends the run.  In
    both cases nothing is sent to the controller and the reader is not
    touched. *)
Theorem port_failure_ends_run (w : World) (ports : PortIDs) (e : PyExc) :
  (Serial w (gps ports) = Some e ->
   set_telescope_from_gps w ports = ([], Raise e)) /\
  (Serial w (gps ports) = None -> Serial w (telescope ports) = Some e ->
   set_telescope_from_gps w ports =
   ([Opened (gps ports); Closed (gps ports)], Raise e)).
Proof.
  unfold set_telescope_from_gps, with_Serial. split.
  - intros G. rewrite G. reflexivity.
  - intros G T. rewrite G, T. reflexivity.
Qed.

Lemma port_failure_witness :
  set_telescope_from_gps (Faults.unplugged "/dev/ttyACM0") Scenario.ports
  = ([], Raise SerialException) /\
  set_telescope_from_gps (Faults.unplugged "/dev/ttyUSB0") Scenario.ports
  = ([Opened "/dev/ttyACM0"; Closed "/dev/ttyACM0"], Raise SerialException).
Proof.
  split.
  - apply (proj1 (port_failure_ends_run (Faults.unplugged "/dev/ttyACM0")
                    Scenario.ports SerialException)).
    reflexivity.
  - apply (proj2 (port_failure_ends_run (Faults.unplugged "/dev/ttyUSB0")
                    Scenario.ports SerialException)); reflexivity.
Defined.

(** X6.  With both ports open, a run opens the GPS port, then the telescope
    port, and when the body of the [with] statement returns or raises it
    closes the telescope port, then the GPS port, as its last two events;
    in between no port is opened or closed.  When the body never returns
    (the reader delivers no further record), no port is closed. *)
Theorem ports_are_released_in_reverse_order (w : World) (ports : PortIDs) :
  ports_open w ports ->
  exists body,
    trace (set_telescope_from_gps w ports) =
      Opened (gps ports) :: Opened (telescope ports) :: body ++
      closing (value (set_telescope_from_gps w ports))
              [Closed (telescope ports); Closed (gps ports)] /\
    forall ev, In ev body -> is_port_event ev = false.
Proof.
  intros P. exists (trace (bind (identify w) (fun _ => synchronise w))).
  rewrite (run_ports_open P). split; [reflexivity |].
  intros ev. apply body_no_port_event.
Qed.

Lemma ports_are_released_witness :
  exists body,
    trace (set_telescope_from_gps
             (Scenario.world Scenario.no_readback Scenario.good_sky)
             Scenario.ports) =
      Opened "/dev/ttyACM0" :: Opened "/dev/ttyUSB0" :: body ++
      closing (value (set_telescope_from_gps
                        (Scenario.world Scenario.no_readback Scenario.good_sky)
                        Scenario.ports))
              [Closed "/dev/ttyUSB0"; Closed "/dev/ttyACM0"] /\
    forall ev, In ev body -> is_port_event ev = false.
Proof.
  apply (@ports_are_released_in_reverse_order
           (Scenario.world Scenario.no_readback Scenario.good_sky)
           Scenario.ports).
  split; reflexivity.
Defined.

(** X7.  A run returns normally exactly when nothing fails: both ports
    open, Identify returns (it does so also when it has caught an
    exception), a fix is acquired, the timezone index and [pytz] know its
    zone, and the controller answers [setTime], [setLocation] and the three
    read-backs.  Every other run ends with an exception or never returns. *)
Theorem run_returns_iff_nothing_fails (w : World) (ports : PortIDs) :
  value (set_telescope_from_gps w ports) = Ok tt <-> completes w ports.
Proof.
  split; [apply run_Ok_completes |].
  intros (P & I & f & name & zone & loc & t & pos
          & E & T & Z & ST & SL & L & GT & GP).
  rewrite (completes_run P I E T Z ST SL L GT GP). reflexivity.
Qed.

(** X8.  The events of a run that returns, in order: the two ports are
    opened, the controller is identified, the input buffer of the GPS port
    is reset, the records are read until the fix is complete, the local time
    is set, then the location, the four lines on the fix are printed, the
    location, the time and the position are read back and printed, and the
    two ports are closed. *)
Theorem trace_of_a_run_that_returns (w : World) (ports : PortIDs) :
  value (set_telescope_from_gps w ports) = Ok tt ->
  exists f name zone loc t pos,
    value (wait_for_fix (nmea w) default_hdop) = Emitted f /\
    timezone_at w (Fix.lat f) (Fix.lon f) = Some name /\
    zones w name = Some zone /\
    trace (set_telescope_from_gps w ports) =
      Opened (gps ports) :: Opened (telescope ports) ::
      trace (identify w) ++
      reset_input_buffer :: trace (wait_for_fix (nmea w) default_hdop) ++
      push_time f zone :: push_location f :: report f zone ++
      read_backs loc t pos ++
      [Closed (telescope ports); Closed (gps ports)].
Proof.
  intros H. destruct (run_Ok_completes _ _ H)
    as (P & I & f & name & zone & loc & t & pos
        & E & T & Z & ST & SL & L & GT & GP).
  exists f, name, zone, loc, t, pos.
  rewrite (completes_run P I E T Z ST SL L GT GP). auto.
Qed.

Lemma trace_of_a_run_that_returns_witness :
  exists f name zone loc t pos,
    value (wait_for_fix Scenario.good_sky default_hdop) = Emitted f /\
    Scenario.finder (Fix.lat f) (Fix.lon f) = Some name /\
    Scenario.pytz_zones name = Some zone /\
    trace (set_telescope_from_gps
             (Scenario.world Scenario.unidentified Scenario.good_sky)
             Scenario.ports) =
      Opened "/dev/ttyACM0" :: Opened "/dev/ttyUSB0" ::
      trace (identify (Scenario.world Scenario.unidentified Scenario.good_sky))
      ++ reset_input_buffer :: trace (wait_for_fix Scenario.good_sky default_hdop)
      ++ push_time f zone :: push_location f :: report f zone ++
      read_backs loc t pos ++
      [Closed "/dev/ttyUSB0"; Closed "/dev/ttyACM0"].
Proof.
  apply (@trace_of_a_run_that_returns
           (Scenario.world Scenario.unidentified Scenario.good_sky)
           Scenario.ports).
  reflexivity.
Defined.

Lemma identify_interrupted w :
  identification_fails w KeyboardInterrupt ->
  value (identify w) = Raise KeyboardInterrupt /\
  forall ev, In ev (trace (identify w)) ->
             ev = Sent getModel \/ ev = Sent getVersion \/
             exists model, ev = Print (NexStar_Model model).
Proof.
  intros [M | [(m & M & N & D) | (m & name & M & N & V)]];
    try discriminate D;
    unfold identify, to_NexstarModel, bind, call, print, emit, ret, raise;
    rewrite M; try rewrite N; try rewrite V; simpl;
    (split; [reflexivity |]);
    intros ev H; repeat (destruct H as [H | H]; [subst; eauto |]); destruct H.
Qed.

Lemma writes_no_write l : no_write l -> writes l = [].
Proof.
  unfold writes, no_write. induction l as [|ev l IH]; intros N; simpl.
  - reflexivity.
  - rewrite (N ev (or_introl eq_refl)). apply IH.
    intros ev' I. apply N. right. exact I.
Qed.

Lemma writes_app l1 l2 : writes (l1 ++ l2) = writes l1 ++ writes l2.
Proof. apply filter_app. Qed.

Lemma wait_for_fix_no_write w :
  no_write (trace (wait_for_fix (nmea w) default_hdop)).
Proof.
  intros ev H. destruct (wait_loop_prints _ _ _ H) as [l ->]. reflexivity.
Qed.

(** The writes of [synchronise]. *)
Lemma writes_synchronise w :
  writes (trace (synchronise w)) = [] \/
  exists f name zone,
    value (wait_for_fix (nmea w) default_hdop) = Emitted f /\
    timezone_at w (Fix.lat f) (Fix.lon f) = Some name /\
    zones w name = Some zone /\
    (writes (trace (synchronise w)) = [push_time f zone] /\
     on_setTime (controller w) (local_time f zone)
                (dst_flag (local_time f zone)) <> Ok tt \/
     writes (trace (synchronise w)) = [push_time f zone; push_location f] /\
     on_setTime (controller w) (local_time f zone)
                (dst_flag (local_time f zone)) = Ok tt).
Proof.
  pose proof (writes_no_write (wait_for_fix_no_write w)) as W.
  pose proof (writes_no_write (verify_no_write w)) as V.
  destruct (value (wait_for_fix (nmea w) default_hdop)) as [f| |st] eqn:E.
  - destruct (timezone_at w (Fix.lat f) (Fix.lon f)) as [name|] eqn:T.
    + destruct (zones w name) as [zone|] eqn:Z.
      * right. exists f, name, zone.
        split; [reflexivity | split; [exact T | split; [exact Z |]]].
        rewrite (synchronise_pushes w E T Z).
        unfold writes in *.
        destruct (on_setTime (controller w) _ _) as [[]|e|];
          [destruct (on_setLocation (controller w) _ _) as [[]|e|] | |];
          cbn [trace fst filter is_write];
          rewrite filter_app, W; simpl;
          try (left; split; [reflexivity | discriminate]);
          try (right; split; reflexivity).
        right. split; [| reflexivity]. rewrite V. reflexivity.
      * left. rewrite synchronise_eq. cbv zeta. rewrite E.
        rewrite (resolve_and_push_unknown_zone w f T Z).
        unfold writes in *. simpl. rewrite filter_app, W. reflexivity.
    + left. rewrite synchronise_eq. cbv zeta. rewrite E.
      rewrite (resolve_and_push_no_zone w f T).
      unfold writes in *. simpl. rewrite filter_app, W. reflexivity.
  - left. rewrite synchronise_eq. cbv zeta. rewrite E.
    unfold writes in *. simpl. rewrite filter_app, W. reflexivity.
  - left. rewrite synchronise_eq. cbv zeta. rewrite E. simpl. exact W.
Qed.

(** The writes of a run are those of [synchronise], if it is reached. *)
Lemma writes_run w ports :
  writes (trace (set_telescope_from_gps w ports)) = [] \/
  writes (trace (set_telescope_from_gps w ports)) =
  writes (trace (synchronise w)).
Proof.
  pose proof (writes_no_write (identify_no_write w)) as I.
  unfold set_telescope_from_gps, with_Serial.
  destruct (Serial w (gps ports)); [left; reflexivity |].
  destruct (Serial w (telescope ports)); [left; reflexivity |].
  rewrite bind_unfold. unfold writes in *.
  destruct (value (identify w)) as [[]|e|].
  - right. destruct (value (synchronise w)); simpl;
      rewrite ?filter_app, I; simpl; rewrite ?app_nil_r; reflexivity.
  - left. simpl. rewrite !filter_app, I. reflexivity.
  - left. simpl. exact I.
Qed.

(** X9.  When the reader stops delivering records before the fix is
    complete, the run never returns: it stays in [nmr.read()] with both ports
    open.  Its events are the opening of the ports, the identification, the
    reset of the input buffer and the lines printed for the records read;
    nothing is written to the controller and no port is closed. *)
Theorem stalled_wait_hangs_run (w : World) (ports : PortIDs)
        (st : Accumulator.t) :
  ports_open w ports ->
  value (identify w) = Ok tt ->
  value (wait_for_fix (nmea w) default_hdop) = Blocked st ->
  set_telescope_from_gps w ports =
  (Opened (gps ports) :: Opened (telescope ports) ::
   trace (identify w) ++
   reset_input_buffer :: trace (wait_for_fix (nmea w) default_hdop),
   Hang).
Proof.
  intros P I B. rewrite (run_identified P I).
  rewrite synchronise_eq. cbv zeta. rewrite B. simpl.
  rewrite app_nil_r. reflexivity.
Qed.

Lemma stalled_wait_witness :
  value (set_telescope_from_gps
           (Scenario.world Scenario.healthy
              [Read (Scenario.gga 4); Read (Scenario.rmc "A")])
           Scenario.ports) = Hang.
Proof.
  rewrite (@stalled_wait_hangs_run
             (Scenario.world Scenario.healthy
                [Read (Scenario.gga 4); Read (Scenario.rmc "A")])
             Scenario.ports
             (Accumulator.Make None None (Some (datetime.Date 2024 6 1)) None)).
  - reflexivity.
  - split; reflexivity.
  - reflexivity.
  - reflexivity.
Defined.

(** X10.  The handler of the Identify step catches [Exception] only.  A
    [KeyboardInterrupt] raised while the controller is queried for its model
    or version is not caught: it ends the run.  The two ports are closed;
    the input buffer is not reset, no record is read and nothing is written
    to the controller. *)
Theorem interrupt_during_identify_ends_run (w : World) (ports : PortIDs) :
  ports_open w ports ->
  identification_fails w KeyboardInterrupt ->
  value (set_telescope_from_gps w ports) = Raise KeyboardInterrupt /\
  trace (set_telescope_from_gps w ports) =
    Opened (gps ports) :: Opened (telescope ports) ::
    trace (identify w) ++ [Closed (telescope ports); Closed (gps ports)] /\
  forall ev, In ev (trace (identify w)) ->
             ev = Sent getModel \/ ev = Sent getVersion \/
             exists model, ev = Print (NexStar_Model model).
Proof.
  intros P F. destruct (identify_interrupted F) as [V T].
  rewrite (run_ports_open P), bind_unfold, V. simpl. auto.
Qed.

Lemma interrupt_during_identify_witness :
  value (set_telescope_from_gps
           (Scenario.world Faults.interrupted Scenario.good_sky)
           Scenario.ports) = Raise KeyboardInterrupt.
Proof.
  apply (@interrupt_during_identify_ends_run
           (Scenario.world Faults.interrupted Scenario.good_sky)
           Scenario.ports).
  - split; reflexivity.
  - left. reflexivity.
Defined.

(** X11.  When the controller does not accept [setTime], the exception ends
    the run at that request: [setLocation] is not sent, nothing is printed
    about the fix and nothing is read back; the ports are closed. *)
Theorem setTime_failure_ends_run (w : World) (ports : PortIDs) (f : Fix.t)
        (name : string) (zone : datetime.tzinfo) (e : PyExc) :
  ports_open w ports ->
  value (identify w) = Ok tt ->
  value (wait_for_fix (nmea w) default_hdop) = Emitted f ->
  timezone_at w (Fix.lat f) (Fix.lon f) = Some name ->
  zones w name = Some zone ->
  on_setTime (controller w) (local_time f zone)
             (dst_flag (local_time f zone)) = Raise e ->
  set_telescope_from_gps w ports =
  (Opened (gps ports) :: Opened (telescope ports) ::
   trace (identify w) ++
   reset_input_buffer :: trace (wait_for_fix (nmea w) default_hdop) ++
   [push_time f zone; Closed (telescope ports); Closed (gps ports)],
   Raise e).
Proof.
  intros P I E T Z ST.
  rewrite (run_identified P I), (synchronise_pushes w E T Z), ST. simpl.
  rewrite <- !app_assoc. reflexivity.
Qed.

Lemma setTime_failure_witness :
  value (set_telescope_from_gps
           (Scenario.world Faults.rejects_time Scenario.good_sky)
           Scenario.ports) = Raise NexstarProtocolError.
Proof.
  rewrite (@setTime_failure_ends_run
             (Scenario.world Faults.rejects_time Scenario.good_sky)
             Scenario.ports
             (Fix.Make 34 (-118) (datetime.Date 2024 6 1)
                       (datetime.Time 17 30 0 0))
             "America/Los_Angeles" Scenario.America_Los_Angeles
             NexstarProtocolError).
  - reflexivity.
  - split; reflexivity.
  - reflexivity.
  - reflexivity.
  - reflexivity.
  - reflexivity.
  - reflexivity.
Defined.

(** X12.  When the controller accepts [setTime] and does not accept
    [setLocation], the exception ends the run at that request.  The time has
    been set and stays set - nothing is sent after the failed request - while
    the location has not: the controller is left half updated.  Nothing is
    printed about the fix and nothing is read back. *)
Theorem setLocation_failure_leaves_time_set (w : World) (ports : PortIDs)
        (f : Fix.t) (name : string) (zone : datetime.tzinfo) (e : PyExc) :
  ports_open w ports ->
  value (identify w) = Ok tt ->
  value (wait_for_fix (nmea w) default_hdop) = Emitted f ->
  timezone_at w (Fix.lat f) (Fix.lon f) = Some name ->
  zones w name = Some zone ->
  on_setTime (controller w) (local_time f zone)
             (dst_flag (local_time f zone)) = Ok tt ->
  on_setLocation (controller w) (Fix.lat f) (Fix.lon f) = Raise e ->
  set_telescope_from_gps w ports =
  (Opened (gps ports) :: Opened (telescope ports) ::
   trace (identify w) ++
   reset_input_buffer :: trace (wait_for_fix (nmea w) default_hdop) ++
   [push_time f zone; push_location f;
    Closed (telescope ports); Closed (gps ports)],
   Raise e).
Proof.
  intros P I E T Z ST SL.
  rewrite (run_identified P I), (synchronise_pushes w E T Z), ST, SL. simpl.
  rewrite <- !app_assoc. reflexivity.
Qed.

Lemma setLocation_failure_witness :
  value (set_telescope_from_gps
           (Scenario.world Faults.rejects_location Scenario.good_sky)
           Scenario.ports) = Raise NexstarProtocolError.
Proof.
  rewrite (@setLocation_failure_leaves_time_set
             (Scenario.world Faults.rejects_location Scenario.good_sky)
             Scenario.ports
             (Fix.Make 34 (-118) (datetime.Date 2024 6 1)
                       (datetime.Time 17 30 0 0))
             "America/Los_Angeles" Scenario.America_Los_Angeles
             NexstarProtocolError).
  - reflexivity.
  - split; reflexivity.
  - reflexivity.
  - reflexivity.
  - reflexivity.
  - reflexivity.
  - reflexivity.
  - reflexivity.
Defined.

(** X13.  What a run writes to the controller, in every world: nothing; or
    one [setTime]; or one [setTime] followed by one [setLocation].  A write
    is sent only after a fix was acquired and its zone found; it carries the
    local time of that fix with its daylight-saving flag, or the position of
    that fix.  [setLocation] is sent exactly when [setTime] returned, so the
    location is never set without the time, and no request is sent twice. *)
Theorem writes_of_a_run (w : World) (ports : PortIDs) :
  writes (trace (set_telescope_from_gps w ports)) = [] \/
  exists f name zone,
    value (wait_for_fix (nmea w) default_hdop) = Emitted f /\
    timezone_at w (Fix.lat f) (Fix.lon f) = Some name /\
    zones w name = Some zone /\
    (writes (trace (set_telescope_from_gps w ports)) = [push_time f zone] /\
     on_setTime (controller w) (local_time f zone)
                (dst_flag (local_time f zone)) <> Ok tt \/
     writes (trace (set_telescope_from_gps w ports))
     = [push_time f zone; push_location f] /\
     on_setTime (controller w) (local_time f zone)
                (dst_flag (local_time f zone)) = Ok tt).
Proof.
  destruct (writes_run w ports) as [R | R]; [left; exact R |].
  rewrite R. apply writes_synchronise.
Qed.

(** X14.  When the timezone index names a zone that [pytz] does not know,
    [pytz.timezone] raises [UnknownTimeZoneError] as it does for [None]: the
    run ends with it after the records were read, nothing is written to the
    controller, and the ports are closed. *)
Theorem unknown_zone_name_ends_run (w : World) (ports : PortIDs) (f : Fix.t)
        (name : string) :
  ports_open w ports ->
  value (identify w) = Ok tt ->
  value (wait_for_fix (nmea w) default_hdop) = Emitted f ->
  timezone_at w (Fix.lat f) (Fix.lon f) = Some name ->
  zones w name = None ->
  set_telescope_from_gps w ports =
  (Opened (gps ports) :: Opened (telescope ports) ::
   trace (identify w) ++
   reset_input_buffer :: trace (wait_for_fix (nmea w) default_hdop) ++
   [Closed (telescope ports); Closed (gps ports)],
   Raise UnknownTimeZoneError).
Proof.
  intros P I E T Z. rewrite (run_identified P I).
  rewrite synchronise_eq. cbv zeta. rewrite E.
  rewrite (resolve_and_push_unknown_zone w f T Z). simpl.
  rewrite app_nil_r. reflexivity.
Qed.

Lemma unknown_zone_name_witness :
  value (set_telescope_from_gps
           (Faults.renamed_zone) Scenario.ports) = Raise UnknownTimeZoneError.
Proof.
  rewrite (@unknown_zone_name_ends_run Faults.renamed_zone Scenario.ports
             (Fix.Make 34 (-118) (datetime.Date 2024 6 1)
                       (datetime.Time 17 30 0 0))
             "US/Pacific-New").
  - reflexivity.
  - split; reflexivity.
  - reflexivity.
  - reflexivity.
  - reflexivity.
  - reflexivity.
Defined.

(** ** The device locator: basic facts *)

Lemma upper_string_nil k : upper_string k = EmptyString -> k = EmptyString.
Proof. destruct k; [reflexivity | discriminate]. Qed.

Lemma literal_Some pat s rest :
  re.literal pat s = Some rest <->
  exists k, s = (k ++ rest)%string /\ upper_string k = upper_string pat.
Proof.
  revert s. induction pat as [|p pat IH]; intros s; simpl.
  - split.
    + intros H. injection H as <-. exists EmptyString. auto.
    + intros (k & -> & U). apply upper_string_nil in U. subst k. reflexivity.
  - destruct s as [|c s].
    + split; [discriminate |].
      intros ([|c k] & E & U); discriminate.
    + destruct (Ascii.eqb (re.upper p) (re.upper c)) eqn:C.
      * apply Ascii.eqb_eq in C. rewrite IH. split.
        -- intros (k & -> & U). exists (String c k). simpl.
           rewrite U, C. auto.
        -- intros ([|c' k] & E & U); [discriminate |].
           simpl in E, U. injection E as <- ->. injection U as _ U.
           exists k. auto.
      * apply Ascii.eqb_neq in C. split; [discriminate |].
        intros ([|c' k] & E & U); [discriminate |].
        simpl in E, U. injection E as <- ->. injection U as U _.
        congruence.
Qed.

Lemma hex_digits_Some n s digits rest :
  re.hex_digits n s = Some (digits, rest) <->
  s = (digits ++ rest)%string /\ String.length digits = n /\
  all_hex digits = true.
Proof.
  revert s digits rest. induction n as [|n IH]; intros s digits rest; simpl.
  - split.
    + intros H. injection H as <- <-. auto.
    + intros (-> & L & _). destruct digits; [reflexivity | discriminate].
  - destruct s as [|c s].
    + split; [discriminate |].
      intros (E & L & _). destruct digits; discriminate.
    + destruct (re.hex_digit c) eqn:Hc.
      * destruct (re.hex_digits n s) as [[d r]|] eqn:D.
        -- apply IH in D. destruct D as (-> & L & A). split.
           ++ intros H. injection H as <- <-. simpl. rewrite Hc, L, A. auto.
           ++ intros (E & L' & A'). destruct digits as [|c' d']; [discriminate |].
              simpl in E, L', A'. injection E as <- E. injection L' as L'.
              apply andb_true_iff in A'. destruct A' as [_ A'].
              assert (K : re.hex_digits n (d ++ r)
                          = Some (d', rest)).
              { apply IH. auto. }
              assert (K' : re.hex_digits n (d ++ r) = Some (d, r)).
              { apply IH. auto. }
              congruence.
        -- split; [discriminate |].
           intros (E & L' & A'). destruct digits as [|c' d']; [discriminate |].
           simpl in E, L', A'. injection E as <- E. injection L' as L'.
           apply andb_true_iff in A'. destruct A' as [_ A'].
           assert (K : re.hex_digits n s = Some (d', rest)).
           { apply IH. auto. }
           congruence.
      * split; [discriminate |].
        intros (E & L' & A'). destruct digits as [|c' d']; [discriminate |].
        simpl in E, A'. injection E as <- E.
        rewrite Hc in A'. discriminate.
Qed.

(** Only a colon matches the colon of the pattern. *)
Lemma upper_colon c : re.upper c = ":"%char -> c = ":"%char.
Proof.
  destruct c as [[] [] [] [] [] [] [] []]; vm_compute; congruence.
Qed.

Lemma upper_string_colon k :
  upper_string k = ":"%string -> k = ":"%string.
Proof.
  destruct k as [|c [|c' k]]; simpl; try discriminate.
  intros H. injection H as H. apply upper_colon in H. subst c. reflexivity.
Qed.

(** The pattern at the head of a text. *)
Lemma match_here_Some s vendor_id product_id :
  re.match_here s = Some (vendor_id, product_id) <->
  exists key after,
    s = (key ++ vendor_id ++ ":" ++ product_id ++ after)%string /\
    upper_string key = "VID:PID="%string /\
    String.length vendor_id = 4%nat /\ all_hex vendor_id = true /\
    String.length product_id = 4%nat /\ all_hex product_id = true /\
    re.boundary after = true.
Proof.
  unfold re.match_here. split.
  - destruct (re.literal "VID:PID=" s) as [s1|] eqn:L1; [| discriminate].
    destruct (re.hex_digits 4 s1) as [[v s2]|] eqn:H1; [| discriminate].
    destruct (re.literal ":" s2) as [s3|] eqn:L2; [| discriminate].
    destruct (re.hex_digits 4 s3) as [[p s4]|] eqn:H2; [| discriminate].
    destruct (re.boundary s4) eqn:B; [| discriminate].
    intros H. injection H as <- <-.
    apply literal_Some in L1. destruct L1 as (key & -> & U1).
    apply hex_digits_Some in H1. destruct H1 as (-> & Lv & Av).
    apply literal_Some in L2. destruct L2 as (k2 & -> & U2).
    apply hex_digits_Some in H2. destruct H2 as (-> & Lp & Ap).
    apply upper_string_colon in U2. subst k2.
    exists key, s4. repeat split; auto.
  - intros (key & after & -> & U & Lv & Av & Lp & Ap & B).
    assert (L1 : re.literal "VID:PID="
                   (key ++ vendor_id ++ ":" ++ product_id ++ after)
                 = Some (vendor_id ++ ":" ++ product_id ++ after)%string).
    { apply literal_Some. exists key. split; [reflexivity | exact U]. }
    rewrite L1.
    assert (H1 : re.hex_digits 4 (vendor_id ++ ":" ++ product_id ++ after)
                 = Some (vendor_id, (":" ++ product_id ++ after)%string)).
    { apply hex_digits_Some. auto. }
    rewrite H1.
    assert (L2 : re.literal ":" (":" ++ product_id ++ after)
                 = Some (product_id ++ after)%string) by reflexivity.
    rewrite L2.
    assert (H2 : re.hex_digits 4 (product_id ++ after)
                 = Some (product_id, after)).
    { apply hex_digits_Some. auto. }
    rewrite H2, B. reflexivity.
Qed.

Lemma search_unfold s :
  re.search s =
  match re.match_here s with
  | Some groups => Some groups
  | None =>
      match s with
      | EmptyString => None
      | String _ s' => re.search s'
      end
  end.
Proof. destruct s; reflexivity. Qed.

Lemma search_Some s vendor_id product_id :
  re.search s = Some (vendor_id, product_id) ->
  holds_ids s vendor_id product_id.
Proof.
  induction s as [|c s IH]; rewrite search_unfold;
    destruct (re.match_here _) as [groups|] eqn:M; try discriminate.
  - intros H. injection H as ->. apply match_here_Some in M.
    destruct M as (key & after & E & R). exists EmptyString, key, after.
    split; [exact E | exact R].
  - intros H. destruct (IH H) as (before & key & after & -> & R).
    exists (String c before), key, after. split; [reflexivity | exact R].
Qed.

Lemma search_finds s vendor_id product_id :
  holds_ids s vendor_id product_id -> re.search s <> None.
Proof.
  intros (before & key & after & -> & R).
  induction before as [|c before IH]; rewrite search_unfold.
  - assert (M : re.match_here
                  (key ++ vendor_id ++ ":" ++ product_id ++ after)
                = Some (vendor_id, product_id)).
    { apply match_here_Some. exists key, after. auto. }
    cbn [String.append] in *. rewrite M. discriminate.
  - destruct (re.match_here _); [discriminate | exact IH].
Qed.

Lemma key_eqb_eq (a b : Dict.key) : Dict.key_eqb a b = true <-> a = b.
Proof.
  destruct a as [a1 a2], b as [b1 b2]. unfold Dict.key_eqb. simpl.
  rewrite andb_true_iff, !String.eqb_eq. split.
  - intros [-> ->]. reflexivity.
  - intros H. injection H as -> ->. auto.
Qed.

(** Looking up a key after an assignment. *)
Lemma getitem_setitem d k v k' :
  Dict.getitem (Dict.setitem d k v) k' =
  if Dict.key_eqb k k' then Some v else Dict.getitem d k'.
Proof.
  induction d as [|[k0 v0] d IH]; simpl.
  - reflexivity.
  - destruct (Dict.key_eqb k0 k) eqn:E; simpl.
    + apply key_eqb_eq in E. subst k0.
      destruct (Dict.key_eqb k k'); reflexivity.
    + rewrite IH. destruct (Dict.key_eqb k0 k') eqn:E0; [| reflexivity].
      destruct (Dict.key_eqb k k') eqn:E1; [| reflexivity].
      apply key_eqb_eq in E0, E1. subst.
      assert (T : Dict.key_eqb k' k' = true) by (apply key_eqb_eq; reflexivity).
      congruence.
Qed.

Lemma getitem_scan_port d p id :
  Dict.getitem (snd (scan_port d p)) id =
  if has_id id p then Some (ListPortInfo.device p) else Dict.getitem d id.
Proof.
  unfold scan_port, has_id.
  destruct (re.search (ListPortInfo.hwid p)) as [[vendor_id product_id]|];
    simpl; [apply getitem_setitem | reflexivity].
Qed.

Lemma find_app {A} (test : A -> bool) (l1 l2 : list A) :
  find test (l1 ++ l2) =
  match find test l1 with
  | Some x => Some x
  | None => find test l2
  end.
Proof.
  induction l1 as [|x l1 IH]; simpl; [reflexivity |].
  destruct (test x); [reflexivity | exact IH].
Qed.

(** After the loop, a key is bound to the device of the last entry whose
    hardware id yields it. *)
Lemma getitem_scan_ports d ports id :
  Dict.getitem (snd (scan_ports d ports)) id =
  match last_with_id id ports with
  | Some p => Some (ListPortInfo.device p)
  | None => Dict.getitem d id
  end.
Proof.
  revert d. induction ports as [|p rest IH]; intros d.
  - reflexivity.
  - cbn [scan_ports].
    pose proof (getitem_scan_port d p id) as S.
    destruct (scan_port d p) as [l1 d1]. simpl in S.
    specialize (IH d1). destruct (scan_ports d1 rest) as [l2 d2].
    simpl in *. rewrite IH. unfold last_with_id. simpl. rewrite find_app.
    destruct (find (has_id id) (rev rest)); [reflexivity |].
    simpl. rewrite S. destruct (has_id id p); reflexivity.
Qed.

(** [identify_ports] by the entries found for the two ids. *)
Lemma identify_ports_value sorted_ports :
  snd (identify_ports sorted_ports) =
  match last_with_id GPS_ID sorted_ports,
        last_with_id NEXSTAR_ID sorted_ports with
  | None, _ => Raised_Exception "Could not find the USB GPS device."
  | Some _, None =>
      Raised_Exception "Could not find the USB NexStar telescope device."
  | Some g, Some t =>
      Found {| gps := ListPortInfo.device g;
               telescope := ListPortInfo.device t |}
  end.
Proof.
  unfold identify_ports.
  pose proof (getitem_scan_ports [] sorted_ports GPS_ID) as G.
  pose proof (getitem_scan_ports [] sorted_ports NEXSTAR_ID) as N.
  destruct (scan_ports [] sorted_ports) as [l d]. simpl in G, N.
  rewrite G, N.
  destruct (last_with_id GPS_ID sorted_ports);
    destruct (last_with_id NEXSTAR_ID sorted_ports); reflexivity.
Qed.

Lemma last_with_id_Some id ports p :
  last_with_id id ports = Some p ->
  In p ports /\ re.search (ListPortInfo.hwid p) = Some id.
Proof.
  unfold last_with_id. intros H. apply find_some in H. destruct H as [I T].
  split; [apply in_rev; exact I |].
  unfold has_id in T. destruct (re.search (ListPortInfo.hwid p)) as [g|];
    [| discriminate].
  apply key_eqb_eq in T. congruence.
Qed.

Lemma last_with_id_None id ports :
  last_with_id id ports = None <->
  forall p, In p ports -> re.search (ListPortInfo.hwid p) <> Some id.
Proof.
  unfold last_with_id. split.
  - intros H p I E.
    pose proof (find_none _ _ H p (proj1 (in_rev _ _) I)) as T.
    unfold has_id in T. rewrite E in T.
    assert (K : Dict.key_eqb id id = true) by (apply key_eqb_eq; reflexivity).
    congruence.
  - intros H. destruct (find (has_id id) (rev ports)) as [p|] eqn:F;
      [| reflexivity].
    destruct (@last_with_id_Some id ports p F) as [I E].
    exfalso. exact (H p I E).
Qed.

(** The last element of a list that passes a test, in terms of the
    list. *)
Lemma find_rev_Some {A} (test : A -> bool) (l : list A) x :
  find test (rev l) = Some x ->
  exists l1 l2, l = l1 ++ x :: l2 /\ test x = true /\
                forall y, In y l2 -> test y = false.
Proof.
  induction l as [|a l IH] using rev_ind.
  - discriminate.
  - rewrite rev_app_distr. simpl. destruct (test a) eqn:T.
    + intros H. injection H as ->. exists l, []. repeat split; auto.
      intros y [].
    + intros H. destruct (IH H) as (l1 & l2 & -> & Tx & N).
      exists l1, (l2 ++ [a]). rewrite <- app_assoc. repeat split; auto.
      intros y I. apply in_app_or in I. destruct I as [I | [<- | []]]; auto.
Qed.

Lemma has_id_true id p :
  has_id id p = true <-> re.search (ListPortInfo.hwid p) = Some id.
Proof.
  unfold has_id. destruct (re.search (ListPortInfo.hwid p)) as [g|].
  - rewrite key_eqb_eq. split; congruence.
  - split; discriminate.
Qed.

Lemma has_id_false id p :
  has_id id p = false <-> re.search (ListPortInfo.hwid p) <> Some id.
Proof.
  rewrite <- has_id_true. destruct (has_id id p); split; congruence.
Qed.

Lemma last_with_id_is_last id ports p :
  last_with_id id ports = Some p -> is_last_with_id id ports p.
Proof.
  unfold last_with_id. intros H.
  destruct (find_rev_Some _ _ H) as (l1 & l2 & -> & T & N).
  exists l1, l2. split; [reflexivity | split].
  - apply has_id_true. exact T.
  - intros q I. apply has_id_false. exact (N q I).
Qed.

(** ** The device locator: properties *)

(** X15.  What the pattern of line 28 finds in a hardware id.  When the
    search succeeds, the text holds, somewhere, [VID:PID=] in upper or lower
    case, four hexadecimal digits, a colon and four hexadecimal digits, not
    followed by a letter, a digit or an underscore; the two groups are the
    digits as they are written in the text, in their case.  The search
    fails exactly when the text holds no such passage. *)
Theorem search_finds_vendor_and_product (s : string) :
  (forall vendor_id product_id,
     re.search s = Some (vendor_id, product_id) ->
     holds_ids s vendor_id product_id) /\
  (re.search s = None <->
   forall vendor_id product_id, ~ holds_ids s vendor_id product_id).
Proof.
  split; [intros v p; apply search_Some |]. split.
  - intros N v p H. exact (search_finds H N).
  - intros H. destruct (re.search s) as [[v p]|] eqn:E; [| reflexivity].
    exfalso. exact (H v p (search_Some _ E)).
Qed.

(** X16.  Which ports [identify_ports] returns.  The GPS port is the device
    of the last entry, in the order of the sorted list, whose hardware id
    yields exactly the groups "1546" and "01A7", the telescope port that of
    the last entry that yields "067B" and "23D3".  With several adapters of
    one kind the last one is taken; an id whose digits are written in lower
    case is listed but not taken. *)
Theorem identify_ports_returns_last_matches
        (sorted_ports : list ListPortInfo.t) (ports : PortIDs) :
  snd (identify_ports sorted_ports) = Found ports ->
  exists g t,
    is_last_with_id GPS_ID sorted_ports g /\
    is_last_with_id NEXSTAR_ID sorted_ports t /\
    ports = {| gps := ListPortInfo.device g;
               telescope := ListPortInfo.device t |}.
Proof.
  rewrite identify_ports_value.
  destruct (last_with_id GPS_ID sorted_ports) as [g|] eqn:G; [| discriminate].
  destruct (last_with_id NEXSTAR_ID sorted_ports) as [t|] eqn:T;
    [| discriminate].
  intros H. injection H as <-. exists g, t.
  split; [exact (last_with_id_is_last _ _ G) |].
  split; [exact (last_with_id_is_last _ _ T) | reflexivity].
Qed.

Lemma identify_ports_witness :
  exists g t,
    is_last_with_id GPS_ID
      [Devices.ublox; Devices.builtin; Devices.prolific "/dev/ttyUSB0";
       Devices.prolific "/dev/ttyUSB1"; Devices.lower_case] g /\
    is_last_with_id NEXSTAR_ID
      [Devices.ublox; Devices.builtin; Devices.prolific "/dev/ttyUSB0";
       Devices.prolific "/dev/ttyUSB1"; Devices.lower_case] t /\
    {| gps := "/dev/ttyACM0"; telescope := "/dev/ttyUSB1" |}
    = {| gps := ListPortInfo.device g; telescope := ListPortInfo.device t |}.
Proof.
  apply (@identify_ports_returns_last_matches
           [Devices.ublox; Devices.builtin; Devices.prolific "/dev/ttyUSB0";
            Devices.prolific "/dev/ttyUSB1"; Devices.lower_case]).
  reflexivity.
Defined.

(** X17.  When [identify_ports] raises.  It raises 'Could not find the USB
    GPS device.' exactly when no entry of the list yields the GPS id,
    whether or not a telescope is listed: the GPS is looked for first.  It
    raises 'Could not find the USB NexStar telescope device.' exactly when
    some entry yields the GPS id and none the telescope id.  It raises
    nothing else. *)
Theorem identify_ports_raises (sorted_ports : list ListPortInfo.t) :
  (snd (identify_ports sorted_ports)
   = Raised_Exception "Could not find the USB GPS device." <->
   forall p, In p sorted_ports ->
             re.search (ListPortInfo.hwid p) <> Some GPS_ID) /\
  (snd (identify_ports sorted_ports)
   = Raised_Exception "Could not find the USB NexStar telescope device." <->
   (exists p, In p sorted_ports /\
              re.search (ListPortInfo.hwid p) = Some GPS_ID) /\
   forall p, In p sorted_ports ->
             re.search (ListPortInfo.hwid p) <> Some NEXSTAR_ID) /\
  (forall message,
     snd (identify_ports sorted_ports) = Raised_Exception message ->
     message = "Could not find the USB GPS device."%string \/
     message = "Could not find the USB NexStar telescope device."%string).
Proof.
  rewrite identify_ports_value. rewrite <- !last_with_id_None.
  destruct (last_with_id GPS_ID sorted_ports) as [g|] eqn:G;
    destruct (last_with_id NEXSTAR_ID sorted_ports) as [t|] eqn:T.
  - split; [split; discriminate | split].
    + split; [discriminate | intros [_ K]; discriminate K].
    + intros message K. discriminate K.
  - split; [split; discriminate | split].
    + split; [intros _ | reflexivity]. split; [| reflexivity].
      exists g. exact (last_with_id_Some _ _ G).
    + intros message K. injection K as <-. auto.
  - split; [split; reflexivity | split].
    + split; [discriminate | intros [(p & I & E) _]].
      exfalso. exact (proj1 (last_with_id_None GPS_ID sorted_ports) G p I E).
    + intros message K. injection K as <-. auto.
  - split; [split; reflexivity | split].
    + split; [discriminate | intros [(p & I & E) _]].
      exfalso. exact (proj1 (last_with_id_None GPS_ID sorted_ports) G p I E).
    + intros message K. injection K as <-. auto.
Qed.

Lemma find_filter {A} (test keep : A -> bool) (l : list A) :
  (forall x, test x = true -> keep x = true) ->
  find test (filter keep l) = find test l.
Proof.
  intros H. induction l as [|x l IH]; simpl; [reflexivity |].
  destruct (keep x) eqn:K; simpl.
  - rewrite IH. reflexivity.
  - destruct (test x) eqn:T; [| exact IH].
    rewrite (H x T) in K. discriminate K.
Qed.

Lemma rev_filter {A} (keep : A -> bool) (l : list A) :
  rev (filter keep l) = filter keep (rev l).
Proof.
  induction l as [|x l IH]; simpl; [reflexivity |].
  rewrite filter_app. simpl. destruct (keep x); simpl.
  - rewrite IH. reflexivity.
  - rewrite IH, app_nil_r. reflexivity.
Qed.

Lemma last_with_id_filter id keep ports :
  (forall p, has_id id p = true -> keep p = true) ->
  last_with_id id (filter keep ports) = last_with_id id ports.
Proof.
  intros H. unfold last_with_id. rewrite rev_filter. apply find_filter. exact H.
Qed.

(** X18.  Only the entries that yield one of the two ids count.  Removing
    from the list the ports whose hardware id holds no ids (the ones
    reported as failed to match) and the ports of other devices changes
    neither the ports returned nor the exception raised. *)
Theorem other_ports_do_not_matter (sorted_ports : list ListPortInfo.t) :
  snd (identify_ports
         (filter (fun p => has_id GPS_ID p || has_id NEXSTAR_ID p)
                 sorted_ports))
  = snd (identify_ports sorted_ports).
Proof.
  rewrite !identify_ports_value.
  rewrite !last_with_id_filter; [reflexivity | |];
    intros p H; rewrite H; auto using orb_true_r.
Qed.

(** ** The script: properties *)

Lemma main_unfold sorted_ports w :
  main sorted_ports w =
  match snd (identify_ports sorted_ports) with
  | Raised_Exception message =>
      (map Locator (fst (identify_ports sorted_ports)), Not_located message)
  | Found ports =>
      (map Locator (fst (identify_ports sorted_ports))
         ++ Ports ports :: map Core (trace (set_telescope_from_gps w ports)),
       Ran (value (set_telescope_from_gps w ports)))
  end.
Proof.
  unfold main. destruct (identify_ports sorted_ports) as [l [ports|message]];
    simpl; [| reflexivity].
  destruct (set_telescope_from_gps w ports); reflexivity.
Qed.

Lemma not_Core_Locator l ev : ~ In (Core ev) (map Locator l).
Proof.
  intros H. apply in_map_iff in H. destruct H as (x & E & _). discriminate E.
Qed.

(** X19.  When the list of serial ports lacks the GPS or the telescope,
    the script ends with the exception of [identify_ports] after the lines
    printed for the ports: [set_telescope_from_gps] is not entered, so no
    port is opened and nothing is sent to the controller. *)
Theorem script_stops_when_a_device_is_missing
        (sorted_ports : list ListPortInfo.t) (w : World) :
  (forall p, In p sorted_ports ->
             re.search (ListPortInfo.hwid p) <> Some GPS_ID) \/
  (forall p, In p sorted_ports ->
             re.search (ListPortInfo.hwid p) <> Some NEXSTAR_ID) ->
  exists message,
    main sorted_ports w =
    (map Locator (fst (identify_ports sorted_ports)), Not_located message) /\
    forall ev, ~ In (Core ev) (fst (main sorted_ports w)).
Proof.
  intros H. rewrite main_unfold, identify_ports_value.
  rewrite <- !last_with_id_None in H.
  destruct (last_with_id GPS_ID sorted_ports) as [g|];
    [destruct (last_with_id NEXSTAR_ID sorted_ports) as [t|] |];
    try (destruct H; discriminate);
    eexists; (split; [reflexivity | intros ev; apply not_Core_Locator]).
Qed.

Lemma script_stops_witness :
  exists message,
    main [Devices.ublox; Devices.builtin; Devices.lower_case]
         (Scenario.world Scenario.healthy Scenario.good_sky) =
    (map Locator
       (fst (identify_ports
               [Devices.ublox; Devices.builtin; Devices.lower_case])),
     Not_located message) /\
    forall ev,
      ~ In (Core ev)
           (fst (main [Devices.ublox; Devices.builtin; Devices.lower_case]
                      (Scenario.world Scenario.healthy Scenario.good_sky))).
Proof.
  apply (@script_stops_when_a_device_is_missing
           [Devices.ublox; Devices.builtin; Devices.lower_case]
           (Scenario.world Scenario.healthy Scenario.good_sky)).
  right. intros p I. simpl in I.
  destruct I as [<- | [<- | [<- | []]]]; vm_compute; discriminate.
Defined.

(** X20.  The script as a whole returns normally exactly when
    [identify_ports] finds both devices and the run on the two ports it
    returns meets every condition of a complete run.  What the script then
    writes is the lines of [identify_ports], the ports, and the events of the
    run, in this order. *)
Theorem script_returns_iff_located_and_complete
        (sorted_ports : list ListPortInfo.t) (w : World) :
  (snd (main sorted_ports w) = Ran (Ok tt) <->
   exists ports,
     snd (identify_ports sorted_ports) = Found ports /\ completes w ports) /\
  (forall ports,
     snd (identify_ports sorted_ports) = Found ports ->
     fst (main sorted_ports w) =
     map Locator (fst (identify_ports sorted_ports))
       ++ Ports ports :: map Core (trace (set_telescope_from_gps w ports))).
Proof.
  rewrite main_unfold.
  destruct (snd (identify_ports sorted_ports)) as [ports|message]; simpl.
  - split.
    + split.
      * intros H. injection H as H. exists ports.
        split; [reflexivity | exact (run_Ok_completes _ _ H)].
      * intros (ports' & E & C). injection E as <-.
        destruct C as (P & I & f & name & zone & loc & t & pos
                       & E & T & Z & ST & SL & L & GT & GP).
        rewrite (completes_run P I E T Z ST SL L GT GP). reflexivity.
    + intros ports' E. injection E as <-. reflexivity.
  - split.
    + split; [discriminate | intros (ports & E & _); discriminate E].
    + intros ports E. discriminate E.
Qed.
